(** * hwt9053.js: serial deframing, CRC check and delivery pipeline

    A shallow embedding of [hwt9053_angle/hwt9053.js]: the CRC16/Modbus
    routine, the ['data'] handler of the serial port (frame decoder) and
    [sendDataToTcpServer] (primary delivery, gap check, backfill from the
    daily log, secondary delivery), followed by the properties of the
    specification that concern them.

    Conventions.  An instant is its number of milliseconds since the epoch;
    the ISO-8601 strings that the program passes around are in one-to-one
    correspondence with them.  A calendar day is its number since the
    epoch in UTC.  The local time zone, in which [setDate] and [getDate]
    work, is part of the surroundings.  A run of the ['data'] handler is followed to its end
    without another run being interleaved at its [await]s.  The network,
    the file system, the clock and the metric probes are an oracle. *)

From Stdlib Require Import String Ascii DecimalString.
From Stdlib Require Import ZArith List Bool Lia QArith Qround Qabs.
Import ListNotations.

Local Close Scope Q_scope.
Local Open Scope Z_scope.

(** ** JavaScript 32-bit integer operators

    The bitwise operators of JavaScript first convert their operands with
    ToInt32 and give a signed 32-bit result.  [Z.lor], [Z.land] and [Z.lxor]
    work on the infinite two's-complement representation, so they agree with
    the 32-bit operation once the operands are converted. *)
Module JsInt.

Definition to_int32 (z : Z) : Z :=
  let m := z mod 2 ^ 32 in
  if m <? 2 ^ 31 then m else m - 2 ^ 32.

(** [a << n] *)
Definition shl (a n : Z) : Z := to_int32 (Z.shiftl (to_int32 a) (n mod 32)).
(** [a >> n] (sign propagating) *)
Definition sar (a n : Z) : Z := Z.shiftr (to_int32 a) (n mod 32).
(** [a | b] *)
Definition or (a b : Z) : Z := Z.lor (to_int32 a) (to_int32 b).
(** [a & b] *)
Definition and (a b : Z) : Z := Z.land (to_int32 a) (to_int32 b).
(** [a ^ b] *)
Definition xor (a b : Z) : Z := Z.lxor (to_int32 a) (to_int32 b).
(** truthiness of a number: every number but 0 (and NaN) *)
Definition truthy (a : Z) : bool := negb (a =? 0).

End JsInt.

(** ** Buffers

    A Node [Buffer] is a sequence of bytes; an element is a number in
    0..255.  Reading past the end gives [undefined], which the bitwise
    operators turn into 0. *)
Definition Buffer := list Z.

Definition is_byte (b : Z) : Prop := 0 <= b < 256.
Definition wf_buffer (buf : Buffer) : Prop := Forall is_byte buf.

(** [buf[i]] *)
Definition byteAt (buf : Buffer) (i : nat) : Z := nth i buf 0.
(** [buf.slice(a, b)] *)
Definition slice (a b : nat) (buf : Buffer) : Buffer := firstn (b - a) (skipn a buf).
(** [buf.slice(a)] *)
Definition slice_from (a : nat) (buf : Buffer) : Buffer := skipn a buf.

(** [a.equals(b)] *)
Fixpoint buffer_equals (a b : Buffer) : bool :=
  match a, b with
  | [], [] => true
  | x :: a', y :: b' => (x =? y) && buffer_equals a' b'
  | _, _ => false
  end.

(** [buf.indexOf(value, byteOffset)]: the first index at or after
    [byteOffset] holding [value]; [None] stands for the result -1. *)
Fixpoint indexOf (buf : Buffer) (value : Z) (byteOffset : nat) : option nat :=
  match buf with
  | [] => None
  | b :: rest =>
      match byteOffset with
      | O => if b =? value then Some O else option_map S (indexOf rest value O)
      | S off => option_map S (indexOf rest value off)
      end
  end.

(** ** crc16Modbus (lines 278-291) *)

(** The body of the inner [for (let i = 0; i < 8; i++)] loop. *)
Definition crc_shift (crc : Z) : Z :=
  if JsInt.truthy (JsInt.and crc 0x0001)
  then JsInt.xor (JsInt.sar crc 1) 0xA001
  else JsInt.sar crc 1.

(** One turn of [for (let byte of buffer)]. *)
Definition crc_update (crc byte : Z) : Z :=
  Nat.iter 8 crc_shift (JsInt.xor crc byte).

(** The register after the outer loop. *)
Definition crc_register (buffer : Buffer) : Z :=
  fold_left crc_update buffer 0xFFFF.

Definition crc16Modbus (buffer : Buffer) : Buffer :=
  let crc := crc_register buffer in
  [JsInt.and crc 0xFF; JsInt.and (JsInt.sar crc 8) 0xFF].

(** *** CRC16/Modbus as the specification words it

    Reflected polynomial 0xA001, initial register 0xFFFF, one byte at a time
    into the low byte of the register, eight right shifts per byte; stated
    on unbounded integers, without any 32-bit conversion. *)
Module Crc16Ref.

Definition poly : Z := 0xA001.
Definition init : Z := 0xFFFF.

Definition shift1 (r : Z) : Z :=
  if Z.odd r then Z.lxor (Z.shiftr r 1) poly else Z.shiftr r 1.

Definition feed (r b : Z) : Z := Nat.iter 8 shift1 (Z.lxor r b).

Definition run (r : Z) (bs : list Z) : Z := fold_left feed bs r.

Definition crc16 (bs : list Z) : Z := run init bs.

End Crc16Ref.

(** The two trailer bytes read as a little-endian 16-bit number. *)
Definition le16 (lo hi : Z) : Z := lo + 256 * hi.

(** ** JavaScript values and objects *)

Inductive JsValue : Type :=
| JsUndefined
| JsNull
| JsBool (b : bool)
| JsString (s : string)
    (** a string other than those of [JsTime] *)
| JsNumber (value : Q)
    (** a finite number, held exactly *)
| JsComposite (primitive : string)
    (** an array or an object met as a property of a parsed log entry;
        [primitive] is the string that its conversion to a primitive gives *)
| JsTime (ms : Z)
    (** the ISO-8601 string that [toISOString] gives for the instant [ms]
        (milliseconds since the epoch) and that [new Date] parses back *).

(** [a === b]; the program compares no date string with another string,
    and no array or object with anything. *)
Definition strict_equals (a b : JsValue) : bool :=
  match a, b with
  | JsUndefined, JsUndefined => true
  | JsNull, JsNull => true
  | JsBool x, JsBool y => Bool.eqb x y
  | JsString x, JsString y => String.eqb x y
  | JsNumber x, JsNumber y => Qeq_bool x y
  | JsTime x, JsTime y => x =? y
  | _, _ => false
  end.

(** Truthiness, as tested by [if (v)]. *)
Definition truthy (v : JsValue) : bool :=
  match v with
  | JsUndefined | JsNull => false
  | JsBool b => b
  | JsString s => negb (String.eqb s "")
  | JsNumber x => negb (Qeq_bool x 0)
  | JsComposite _ => true
  | JsTime _ => true
  end.

(** An object literal or a parsed JSON object: its own properties in
    insertion order. *)
Definition JsObject := list (string * JsValue).

Fixpoint prop (o : JsObject) (k : string) : JsValue :=
  match o with
  | [] => JsUndefined
  | (k', v) :: rest => if String.eqb k' k then v else prop rest k
  end.

Definition hasOwnProperty (o : JsObject) (k : string) : bool :=
  existsb (fun kv => String.eqb (fst kv) k) o.

(** ** Number.prototype.toFixed(3) on the decoded angle

    The angle is a 32-bit integer divided by 1000.  The quotient is held
    here as an exact rational: a double is within 2^-53 relative error of
    it, far less than the half unit in the third decimal that [toFixed]
    rounds at, so the digits produced are those of the exact quotient. *)
Definition digits (n : Z) : string :=
  NilZero.string_of_uint (N.to_uint (Z.to_N n)).

Definition pad3 (n : Z) : string :=
  ((if (n <? 100)%Z then "0" else "") ++ (if (n <? 10)%Z then "0" else "")
   ++ digits n)%string.

Definition toFixed3 (x : Q) : string :=
  let neg := match (x ?= 0)%Q with Lt => true | _ => false end in
  let ax := if neg then Qopp x else x in
  (* the integer n for which n / 1000 - ax is closest to zero, the larger
     one on a tie *)
  let n := Qfloor (ax * 1000 + (1 # 2))%Q in
  ((if neg then "-" else "") ++ digits (n / 1000)%Z ++ "." ++ pad3 (n mod 1000)%Z)%string.

(** [(b2 << 24 | b3 << 16 | b0 << 8 | b1)] for the group at [offset]. *)
Definition axis_int (buf : Buffer) (offset : nat) : Z :=
  JsInt.or
    (JsInt.or
       (JsInt.or (JsInt.shl (byteAt buf (offset + 2)%nat) 24)
                 (JsInt.shl (byteAt buf (offset + 3)%nat) 16))
       (JsInt.shl (byteAt buf offset) 8))
    (byteAt buf (offset + 1)%nat).

(** [axis_int / 1000] *)
Definition axis_angle (buf : Buffer) (offset : nat) : Q :=
  (inject_Z (axis_int buf offset) / 1000)%Q.

(** The reassembled group read as an unsigned 32-bit number. *)
Definition axis_unsigned (buf : Buffer) (offset : nat) : Z :=
  byteAt buf (offset + 2)%nat * 2 ^ 24 + byteAt buf (offset + 3)%nat * 2 ^ 16
  + byteAt buf offset * 2 ^ 8 + byteAt buf (offset + 1)%nat.

(** ** Configuration (lines 10-17)

    The settings read from [process.env]; each is a string, and the start-up
    checks of lines 19-62 have rejected the empty ones.  [SAMPLE_RATE] is
    kept as the whole number of milliseconds that [Number(SAMPLE_RATE)]
    gives. *)
Record Config : Type := {
  DEVICE_ID : string;
  BACKUP_TCP_HOST : string;
  BACKUP_TCP_PORT : string;
  BACKUP_TCP_TEST : string;
  SAMPLE_RATE : Z
}.

(** ** The outside world

    Everything the program asks of its surroundings is answered by an
    oracle indexed by the number of questions asked so far, so that the
    same request may fare differently at different times. *)
Inductive Probe : Type :=
| CpuTemperature | CpuVoltage | Rssi | MemoryUsagePercentage | DiskUsagePercentage.

Record Env : Type := {
  (** [process.hrtime.bigint()], nanoseconds *)
  hrtime : nat -> Z;
  (** the promise of a probe of [check_status]; [None] when it rejects *)
  probe_result : nat -> Probe -> option JsValue;
  (** whether [axios.post(API_URL, body)] resolves *)
  post_result : nat -> JsObject -> bool;
  (** [JSON.parse] of the daily log file of a day; [None] when something
      in the [try] block of lines 208-220 throws (file missing, not JSON,
      not an array of objects) *)
  file_result : nat -> Z -> option (list JsObject);
  (** whether the socket of the backup server connects *)
  connect_result : nat -> bool;
  (** [Date.prototype.toISOString] *)
  toISOString : Z -> string;
  (** [Number.prototype.toString] *)
  numberToString : Q -> string;
  (** [Date.parse] on a string that is not one of [toISOString]'s: the
      formats accepted are left to the implementation; [None] is NaN *)
  Date_parse : string -> option Z;
  (** the local time zone, as the two conversions of ECMAScript between
      time values: LocalTime(t), from UTC to local time, and UTC(t), back *)
  LocalTime : Z -> Z;
  UTC : Z -> Z
}.

(** TimeClip: a time value is at most 8.64e15 ms away from the epoch, and
    is a whole number of milliseconds. *)
Definition TimeClip (time : Q) : option Z :=
  if Qle_bool (Qabs time) (inject_Z 8640000000000000)
  then Some (Z.quot (Qnum time) (Z.pos (Qden time)))
  else None.

(** [new Date(v)], as its time value; [None] is the Invalid Date.  A
    string is parsed; any other value is converted to a number first:
    [undefined] to NaN, [null] and [false] to 0, [true] to 1. *)
Definition new_Date (env : Env) (v : JsValue) : option Z :=
  match v with
  | JsUndefined => None
  | JsNull => Some 0
  | JsBool b => Some (if b then 1 else 0)
  | JsString s => Date_parse env s
  | JsNumber x => TimeClip x
  | JsComposite s => Date_parse env s
  | JsTime ms => Some ms
  end.

(** The lines written to the console, one constructor per call site. *)
Inductive LogLine : Type :=
| LogSensing
| LogPayload (payload : JsObject)
| LogCrcFailed
| LogDiscarding (index : nat)
| LogNoFrame
| LogSending
| LogSent
| LogGap (diff : Z) (threshold : Q)
| LogReadError (date : Z)
| LogFound (n : nat)
| LogResent (sensing_time : JsValue)
| LogResendFailed (sensing_time : JsValue)
| LogTransmissionError
| LogTcpSent
| LogTcpError
| LogTcpClosed.

(** The two places that post to the primary sink: line 189 and line 230. *)
Inductive PostSite : Type := Primary | Resend.

Inductive Event : Type :=
| Console (line : LogLine)
| Post (site : PostSite) (body : JsObject) (ok : bool)
| ReadFile (date : Z) (ok : bool)
| Save (entry : JsObject)               (** [dailyLogger.save] *)
| TcpConnect (ok : bool)
| TcpWrite (data : string)
| TcpEnd.

(** The module-level variables (lines 65-72) and the oracle index. *)
Record World : Type := {
  dataBuffer : Buffer;
  lastSuccessTime : JsValue;
  startTime : Z;
  startHrtime : Z;
  tick : nat
}.

(** ** A state monad that records the effects performed *)
Definition M (A : Type) : Type := World -> A * World * list Event.

Definition ret {A} (a : A) : M A := fun w => (a, w, []).

Definition bind {A B} (m : M A) (k : A -> M B) : M B :=
  fun w =>
    let '(a, w1, e1) := m w in
    let '(b, w2, e2) := k a w1 in
    (b, w2, e1 ++ e2).

Declare Scope monad_scope.
Delimit Scope monad_scope with monad.
Notation "x <- m ;; k" := (bind m (fun x => k))
  (at level 61, m at next level, right associativity) : monad_scope.
Notation "m ;; k" := (bind m (fun _ => k))
  (at level 61, right associativity) : monad_scope.
Local Open Scope monad_scope.

Definition result {A} (r : A * World * list Event) : A := fst (fst r).
Definition world_of {A} (r : A * World * list Event) : World := snd (fst r).
Definition events {A} (r : A * World * list Event) : list Event := snd r.

Definition emit (e : Event) : M unit := fun w => (tt, w, [e]).
Definition log (l : LogLine) : M unit := emit (Console l).

Definition next_tick (w : World) : World :=
  {| dataBuffer := dataBuffer w; lastSuccessTime := lastSuccessTime w;
     startTime := startTime w; startHrtime := startHrtime w;
     tick := S (tick w) |}.

Definition with_dataBuffer (b : Buffer) (w : World) : World :=
  {| dataBuffer := b; lastSuccessTime := lastSuccessTime w;
     startTime := startTime w; startHrtime := startHrtime w;
     tick := tick w |}.

Definition with_lastSuccessTime (v : JsValue) (w : World) : World :=
  {| dataBuffer := dataBuffer w; lastSuccessTime := v;
     startTime := startTime w; startHrtime := startHrtime w;
     tick := tick w |}.

Definition get_dataBuffer : M Buffer := fun w => (dataBuffer w, w, []).
Definition set_dataBuffer (b : Buffer) : M unit :=
  fun w => (tt, with_dataBuffer b w, []).
Definition get_lastSuccessTime : M JsValue := fun w => (lastSuccessTime w, w, []).
Definition set_lastSuccessTime (v : JsValue) : M unit :=
  fun w => (tt, with_lastSuccessTime v w, []).

(** UTC calendar day of an instant: [toISOString().split('T')[0]]. *)
Definition day_of (ms : Z) : Z := ms / 86400000.

(** [new Date(s)] for a date-only string [s]: midnight UTC of that day. *)
Definition day_start (day : Z) : Z := day * 86400000.

(** [d.setDate(d.getDate() + 1)] on the time value of [d]: the date is
    read and set on the local calendar, so the new time value is that of
    the same local time of day one calendar day later. *)
Definition setDate_next (env : Env) (t : Z) : Z :=
  UTC env (LocalTime env t + 86400000).

(** The loop of lines 178-181. *)
Fixpoint getDateRange_loop (env : Env) (fuel : nat) (currentDate endDate : Z)
         (dates : list Z) : list Z :=
  match fuel with
  | O => dates
  | S fuel' =>
      if currentDate <=? endDate then
        getDateRange_loop env fuel' (setDate_next env currentDate) endDate
                          (dates ++ [day_of currentDate])
      else dates
  end.

(** getDateRange (lines 174-183).  The two days are given by their
    numbers.  The loop is followed for two turns per day of the range and
    two more, which is more than it makes when a step on the local
    calendar advances the instant by twelve hours or more. *)
Definition getDateRange (env : Env) (startDate endDate : Z) : list Z :=
  getDateRange_loop env (Z.to_nat (2 * (endDate - startDate) + 2))
                    (day_start startDate) (day_start endDate) [].

(** [a > b] on numbers, [None] being NaN. *)
Definition num_gt (a : option Z) (b : Q) : bool :=
  match a with
  | Some x => match (inject_Z x ?= b)%Q with Gt => true | _ => false end
  | None => false
  end.

(** [a - b] on dates. *)
Definition date_diff (a b : option Z) : option Z :=
  match a, b with
  | Some x, Some y => Some (x - y)
  | _, _ => None
  end.

(** [a > b] and [a <= b] on dates; false when either is invalid. *)
Definition date_gt (a b : option Z) : bool :=
  match a, b with Some x, Some y => y <? x | _, _ => false end.
Definition date_le (a b : option Z) : bool :=
  match a, b with Some x, Some y => x <=? y | _, _ => false end.

(** The filter of lines 212-219. *)
Definition unsent_filter (env : Env) (lastTime currentPayloadTime : option Z)
           (entry : JsObject) : bool :=
  let entryTime := new_Date env (prop entry "sensing_time") in
  date_gt entryTime lastTime &&
  date_le entryTime currentPayloadTime &&
  hasOwnProperty entry "ang_x" &&
  hasOwnProperty entry "ang_y" &&
  hasOwnProperty entry "ang_z".

Section Program.

Variable env : Env.
Variable cfg : Config.

(** getPreciseAbsoluteTime (lines 92-96) *)
Definition getPreciseAbsoluteTime : M Z :=
  fun w =>
    let elapsedNs := hrtime env (tick w) - startHrtime w in
    let elapsedMs := Z.quot elapsedNs 1000000 in
    (startTime w + elapsedMs, next_tick w, []).

(** [await probe().catch(() => null)] *)
Definition probe (p : Probe) : M JsValue :=
  fun w =>
    (match probe_result env (tick w) p with Some v => v | None => JsNull end,
     next_tick w, []).

(** [await axios.post(API_URL, body)]; [false] when it throws. *)
Definition axios_post (site : PostSite) (body : JsObject) : M bool :=
  fun w =>
    let ok := post_result env (tick w) body in
    (ok, next_tick w, [Post site body ok]).

(** [JSON.parse(await fs.promises.readFile(...))]; [None] when it throws. *)
Definition readLogFile (date : Z) : M (option (list JsObject)) :=
  fun w =>
    let r := file_result env (tick w) date in
    (r, next_tick w, [ReadFile date (match r with Some _ => true | None => false end)]).

Definition tcp_connect : M bool :=
  fun w =>
    let ok := connect_result env (tick w) in
    (ok, next_tick w, [TcpConnect ok]).

(** Conversion to a string inside a template literal. *)
Definition to_string (v : JsValue) : string :=
  match v with
  | JsUndefined => "undefined"
  | JsNull => "null"
  | JsBool true => "true"
  | JsBool false => "false"
  | JsString s => s
  | JsNumber x => numberToString env x
  | JsComposite s => s
  | JsTime ms => toISOString env ms
  end.

(** The loop of lines 206-224 over the dates of the gap. *)
Fixpoint read_unsent (lastTime currentPayloadTime : option Z)
         (dates : list Z) (unsentEntries : list JsObject) : M (list JsObject) :=
  match dates with
  | [] => ret unsentEntries
  | date :: rest =>
      r <- readLogFile date ;;
      match r with
      | Some logEntries =>
          let filtered := filter (unsent_filter env lastTime currentPayloadTime) logEntries in
          read_unsent lastTime currentPayloadTime rest (unsentEntries ++ filtered)
      | None =>
          log (LogReadError date) ;;
          read_unsent lastTime currentPayloadTime rest unsentEntries
      end
  end.

(** The loop of lines 228-237: resend until the first failure. *)
Fixpoint resend (unsentEntries : list JsObject) : M unit :=
  match unsentEntries with
  | [] => ret tt
  | entry :: rest =>
      ok <- axios_post Resend entry ;;
      if ok then
        set_lastSuccessTime (prop entry "sensing_time") ;;
        log (LogResent (prop entry "sensing_time")) ;;
        resend rest
      else
        log (LogResendFailed (prop entry "sensing_time"))
  end.

(** The backfill episode, lines 200-237. *)
Definition backfill (lastTime currentPayloadTime diff : Z) (threshold : Q) : M unit :=
  log (LogGap diff threshold) ;;
  let startDateStr := day_of lastTime in
  let currentPayloadDayStr := day_of currentPayloadTime in
  let dates := getDateRange env startDateStr currentPayloadDayStr in
  unsentEntries <- read_unsent (Some lastTime) (Some currentPayloadTime) dates [] ;;
  let unsentEntries := rev unsentEntries in
  log (LogFound (length unsentEntries)) ;;
  resend unsentEntries.

(** The backup transmission of lines 248-261; the callbacks are run at
    once. *)
Definition backup_transmission (payload : JsObject) : M unit :=
  ok <- tcp_connect ;;
  if ok then
    let backup_payload :=
      ("$$$" ++ DEVICE_ID cfg ++ "," ++ to_string (prop payload "sensing_time")
       ++ "," ++ to_string (prop payload "ang_x")
       ++ "," ++ to_string (prop payload "ang_y")
       ++ "," ++ to_string (prop payload "ang_z")
       ++ "," ++ to_string (prop payload "cpu_temperture")
       ++ "," ++ to_string (prop payload "cpu_voltage")
       ++ "," ++ to_string (prop payload "rssi") ++ "###")%string in
    log LogTcpSent ;;
    emit (TcpWrite backup_payload) ;;
    emit TcpEnd ;;
    log LogTcpClosed
  else
    log LogTcpError ;;
    log LogTcpClosed.

(** Lines 190-239 of sendDataToTcpServer: what follows a primary post
    that succeeded.  [1.5 * sampleRateMs] is exact in double precision for
    a whole number of milliseconds, and is kept as a rational. *)
Definition gap_check (payload : JsObject) : M unit :=
  log LogSent ;;
  let sampleRateMs := SAMPLE_RATE cfg in
  let threshold := ((3 # 2) * inject_Z sampleRateMs)%Q in
  let currentPayloadTime := new_Date env (prop payload "sensing_time") in
  last <- get_lastSuccessTime ;;
  if truthy last then
    let lastTime := new_Date env last in
    let diff := date_diff currentPayloadTime lastTime in
    if num_gt diff threshold then
      match lastTime, currentPayloadTime, diff with
      | Some lt, Some ct, Some d => backfill lt ct d threshold
      | _, _, _ => ret tt
      end
    else ret tt
  else ret tt.

(** sendDataToTcpServer (lines 185-263).  [process.env] holds strings,
    so [BACKUP_TCP_TEST] is compared as a string with [true]. *)
Definition sendDataToTcpServer (payload : JsObject) : M unit :=
  log LogSending ;;
  ok <- axios_post Primary payload ;;
  (if ok then gap_check payload else log LogTransmissionError) ;;
  set_lastSuccessTime (prop payload "sensing_time") ;;
  if strict_equals (JsString (BACKUP_TCP_TEST cfg)) (JsBool true)
  then backup_transmission payload
  else ret tt.

(** The object literal of lines 125-136. *)
Definition make_payload (buf : Buffer) (sensing_time : Z)
           (cpuTemp cpuVolt rssi memUsage diskUsage : JsValue) : JsObject :=
  [ ("sensing_time", JsTime sensing_time);
    ("ang_x", JsString (toFixed3 (axis_angle buf 3)));
    ("ang_y", JsString (toFixed3 (axis_angle buf 7)));
    ("ang_z", JsString (toFixed3 (axis_angle buf 11)));
    ("device_id", JsString (DEVICE_ID cfg));
    ("cpu_temperture", cpuTemp);
    ("cpu_voltage", cpuVolt);
    ("rssi", rssi);
    ("memUsage", memUsage);
    ("diskUsage", diskUsage) ]%string.

(** The object literals of lines 147-150 and 161-164. *)
Definition make_errorLog (sensing_time : Z) (reason : string) : JsObject :=
  [ ("sensing_time", JsTime sensing_time); ("error", JsString reason) ]%string.

Definition magic : Buffer := [0x50; 0x03; 0x0c].

(** Lines 115-144: the frame is valid.  [sendDataToTcpServer] catches
    what it throws, so the [catch] of line 140 is never entered. *)
Definition accept_frame (dataBuffer : Buffer) : M bool :=
  cpuTemp <- probe CpuTemperature ;;
  cpuVolt <- probe CpuVoltage ;;
  rssi <- probe Rssi ;;
  memUsage <- probe MemoryUsagePercentage ;;
  diskUsage <- probe DiskUsagePercentage ;;
  now <- getPreciseAbsoluteTime ;;
  let payload := make_payload dataBuffer now cpuTemp cpuVolt rssi memUsage diskUsage in
  log (LogPayload payload) ;;
  sendDataToTcpServer payload ;;
  emit (Save payload) ;;
  dataBuffer <- get_dataBuffer ;;
  set_dataBuffer (slice_from 17 dataBuffer) ;;
  ret true.

(** Lines 146-152: the checksum does not match. *)
Definition reject_frame : M bool :=
  log LogCrcFailed ;;
  now <- getPreciseAbsoluteTime ;;
  let errorLog := make_errorLog now "CRC validation failed" in
  emit (Save errorLog) ;;
  dataBuffer <- get_dataBuffer ;;
  set_dataBuffer (slice_from 17 dataBuffer) ;;
  ret true.

(** Lines 155-168: the header does not match; [false] is the [break]. *)
Definition resync (dataBuffer : Buffer) : M bool :=
  match indexOf dataBuffer 0x50 1 with
  | Some index =>
      log (LogDiscarding index) ;;
      set_dataBuffer (slice_from index dataBuffer) ;;
      ret true
  | None =>
      log LogNoFrame ;;
      now <- getPreciseAbsoluteTime ;;
      let errorLog := make_errorLog now "No valid frame found" in
      emit (Save errorLog) ;;
      set_dataBuffer [] ;;
      ret false
  end.

(** One turn of the [while] loop of lines 111-170, entered with at least
    17 bytes buffered; the result says whether the loop goes on. *)
Definition loop_body : M bool :=
  dataBuffer <- get_dataBuffer ;;
  if buffer_equals (slice 0 3 dataBuffer) magic then
    let crcCalculated := crc16Modbus (slice 0 15 dataBuffer) in
    if buffer_equals crcCalculated (slice 15 17 dataBuffer)
    then accept_frame dataBuffer
    else reject_frame
  else resync dataBuffer.

(** The [while (dataBuffer.length >= 17)] loop.  Every turn removes at
    least one byte, so the length of the buffer bounds the number of
    turns. *)
Fixpoint data_loop (fuel : nat) : M unit :=
  match fuel with
  | O => ret tt
  | S fuel' =>
      dataBuffer <- get_dataBuffer ;;
      if (17 <=? length dataBuffer)%nat then
        continue <- loop_body ;;
        if continue then data_loop fuel' else ret tt
      else ret tt
  end.

(** The ['data'] handler of the serial port (lines 107-171), run to its
    end before the next chunk is taken. *)
Definition on_data (inputData : Buffer) : M unit :=
  log LogSensing ;;
  dataBuffer <- get_dataBuffer ;;
  set_dataBuffer (dataBuffer ++ inputData) ;;
  dataBuffer <- get_dataBuffer ;;
  data_loop (length dataBuffer).

End Program.

(** ** Vocabulary of the properties *)

(** The buffer with bit [j] of byte [i] inverted. *)
Fixpoint flip_bit (buf : Buffer) (i : nat) (j : Z) : Buffer :=
  match buf, i with
  | [], _ => []
  | b :: rest, O => Z.lxor b (2 ^ j) :: rest
  | b :: rest, S i' => b :: flip_bit rest i' j
  end.

(** The objects handed to [dailyLogger.save], oldest first: every output
    of the frame decoder, Reading or ErrorRecord. *)
Definition saved (evs : list Event) : list JsObject :=
  flat_map (fun e => match e with Save o => [o] | _ => [] end) evs.

(** The bodies posted from a call site, oldest first. *)
Definition posts_at (site : PostSite) (evs : list Event) : list JsObject :=
  flat_map (fun e =>
              match e, site with
              | Post Primary o _, Primary => [o]
              | Post Resend o _, Resend => [o]
              | _, _ => []
              end) evs.

(** A Reading carries the three angles; an ErrorRecord carries [error]. *)
Definition is_reading (o : JsObject) : bool :=
  hasOwnProperty o "ang_x" && hasOwnProperty o "ang_y" && hasOwnProperty o "ang_z".

Definition is_error_record (o : JsObject) : bool :=
  hasOwnProperty o "error" && negb (is_reading o).

Definition readings (evs : list Event) : list JsObject := filter is_reading (saved evs).

(** A backfill episode announces itself on the console (line 200). *)
Definition backfill_started (evs : list Event) : bool :=
  existsb (fun e => match e with Console (LogGap _ _) => true | _ => false end) evs.

(** The events of the secondary sink. *)
Definition tcp_events (evs : list Event) : list Event :=
  filter (fun e => match e with
                   | TcpConnect _ | TcpWrite _ | TcpEnd => true
                   | _ => false
                   end) evs.

(** [1.5 * sampleRateMs] *)
Definition gap_threshold (cfg : Config) : Q := ((3 # 2) * inject_Z (SAMPLE_RATE cfg))%Q.

(** Two worlds that differ at most in [lastSuccessTime] and the oracle
    index. *)
Definition same_buffer (w w' : World) : Prop :=
  dataBuffer w' = dataBuffer w /\ startTime w' = startTime w
  /\ startHrtime w' = startHrtime w.

(** [entry.sensing_time] *)
Definition sensing_time_of (entry : JsObject) : JsValue := prop entry "sensing_time".

(** What a backfill episode may do: write to the console, read a log
    file, resend an entry. *)
Definition episode_event (e : Event) : bool :=
  match e with
  | Console _ | ReadFile _ _ | Post Resend _ _ => true
  | _ => false
  end.

(** The entries of one daily log that a backfill episode keeps. *)
Definition day_candidates (env : Env) (fs : Z -> option (list JsObject))
           (last t : Z) (date : Z) : list JsObject :=
  match fs date with
  | Some logEntries => filter (unsent_filter env (Some last) (Some t)) logEntries
  | None => []
  end.

(** The per-day lists in the order of the dates that [getDateRange]
    gives, each in the order of its file, and the whole reversed. *)
Definition episode_candidates (env : Env) (fs : Z -> option (list JsObject))
           (last t : Z) : list JsObject :=
  rev (concat (map (day_candidates env fs last t)
                   (getDateRange env (day_of last) (day_of t)))).

(** The days from [startDate] to [endDate], both included, in order. *)
Definition days_between (startDate endDate : Z) : list Z :=
  map (fun i => startDate + Z.of_nat i) (seq 0 (Z.to_nat (endDate - startDate + 1))).

(** A local zone whose offset from UTC never changes. *)
Definition fixed_offset_zone (env : Env) : Prop :=
  exists offset, (forall t, LocalTime env t = t + offset)
                 /\ (forall t, UTC env t = t - offset).

(** A local zone in which a step to the next calendar day advances the
    instant by twelve hours or more (the zones in use step by 23 to 25
    hours). *)
Definition zone_steps_forward (env : Env) : Prop :=
  forall t, t + 43200000 <= setDate_next env t.

(** The value of [getPreciseAbsoluteTime()] asked in world [w]. *)
Definition precise_time (env : Env) (w : World) : Z :=
  startTime w + Z.quot (hrtime env (tick w) - startHrtime w) 1000000.

Definition probe_value (env : Env) (n : nat) (p : Probe) : JsValue :=
  match probe_result env n p with Some v => v | None => JsNull end.

(** The Reading that the decoder builds from the frame at the head of
    [buf] when the turn of the loop starts in world [w]: five probes, then
    the clock. *)
Definition reading_at (env : Env) (cfg : Config) (buf : Buffer) (w : World) : JsObject :=
  make_payload cfg buf
    (precise_time env (Nat.iter 5 next_tick w))
    (probe_value env (tick w) CpuTemperature)
    (probe_value env (S (tick w)) CpuVoltage)
    (probe_value env (S (S (tick w))) Rssi)
    (probe_value env (S (S (S (tick w)))) MemoryUsagePercentage)
    (probe_value env (S (S (S (S (tick w))))) DiskUsagePercentage).

(** The ErrorRecord built in world [w]. *)
Definition error_at (env : Env) (w : World) (reason : string) : JsObject :=
  make_errorLog (precise_time env w) reason.

(** The checksum of the first 15 bytes equals the trailer, read
    little-endian. *)
Definition crc_matches (buf : Buffer) : Prop :=
  Crc16Ref.crc16 (slice 0 15 buf) = le16 (byteAt buf 15) (byteAt buf 16).


(** The decode example as the specification states it: a valid frame with
    the bytes 64 00 00 00 at offsets 3 to 6 gives ang_x = "0.100". *)
Definition decode_example_as_stated (env : Env) (cfg : Config) (w : World) : Prop :=
  (17 <= length (dataBuffer w))%nat -> wf_buffer (dataBuffer w) ->
  slice 0 3 (dataBuffer w) = magic -> crc_matches (dataBuffer w) ->
  slice 3 7 (dataBuffer w) = [0x64; 0; 0; 0] ->
  exists p, readings (events (loop_body env cfg w)) = [p]
            /\ prop p "ang_x" = JsString "0.100".

(** Forwarding as the specification states it: whatever the decoder
    outputs, Reading or ErrorRecord, is posted to the primary sink, in the
    order of output. *)
Definition forwards_every_output (env : Env) (cfg : Config) (inputData : Buffer)
           (w : World) : Prop :=
  posts_at Primary (events (on_data env cfg inputData w))
  = saved (events (on_data env cfg inputData w)).

(** The three axes: offset of the group and name of the field. *)
Definition axes : list (nat * string) :=
  [(3%nat, "ang_x"); (7%nat, "ang_y"); (11%nat, "ang_z")]%string.

(** The three properties of a stretch of events that make up forwarding. *)
Definition forwarded (evs : list Event) : Prop :=
  posts_at Primary evs = readings evs
  /\ Forall (fun o => is_reading o = true \/ is_error_record o = true) (saved evs)
  /\ Forall (fun o => is_reading o = true) (posts_at Primary evs ++ posts_at Resend evs).

(** ** Concrete surroundings, used to run the program on examples *)

Definition demo_cfg : Config :=
  {| DEVICE_ID := "tiltmeter_01"; BACKUP_TCP_HOST := "127.0.0.1";
     BACKUP_TCP_PORT := "9000"; BACKUP_TCP_TEST := "true"; SAMPLE_RATE := 1000 |}.

(** Every probe rejects, the clock advances 5 ms per question, the outcome
    of the n-th question, when it is a post, is [post_ok n], the daily
    logs are [fs], strings other than those of [toISOString] are no dates,
    and the local zone is UTC. *)
Definition demo_env (post_ok : nat -> bool) (fs : Z -> option (list JsObject)) : Env :=
  {| hrtime := fun n => 5000000 * Z.of_nat n;
     probe_result := fun _ _ => None;
     post_result := fun n _ => post_ok n;
     file_result := fun _ date => fs date;
     connect_result := fun _ => true;
     toISOString := fun ms => digits ms;
     numberToString := fun x => digits (Qfloor x);
     Date_parse := fun _ => None;
     LocalTime := fun t => t;
     UTC := fun t => t |}.

Definition demo_world (buf : Buffer) (last : JsValue) : World :=
  {| dataBuffer := buf; lastSuccessTime := last;
     startTime := 86400000; startHrtime := 0; tick := 0 |}.

(** A logged reading taken at [t]. *)
Definition demo_reading (t : Z) : JsObject :=
  [ ("sensing_time", JsTime t); ("ang_x", JsString "0.000");
    ("ang_y", JsString "0.000"); ("ang_z", JsString "0.000");
    ("device_id", JsString "tiltmeter_01") ]%string.

(** A frame with the payload bytes 64 00 00 00 at offsets 3..6 and its
    checksum, and the same frame with a wrong checksum. *)
Definition demo_frame : Buffer :=
  [0x50; 0x03; 0x0c; 0x64; 0; 0; 0; 0; 0; 0; 0; 0; 0; 0; 0; 115; 3].
Definition demo_bad_frame : Buffer :=
  [0x50; 0x03; 0x0c; 0x64; 0; 0; 0; 0; 0; 0; 0; 0; 0; 0; 0; 0; 0].
(** A frame whose x angle has its top bit set. *)
Definition demo_negative_frame : Buffer :=
  [0x50; 0x03; 0x0c; 0xff; 0x9c; 0xff; 0xff; 0; 0; 0; 0; 0; 0; 0; 0; 231; 12].

(** Two daily logs: day 1 holds readings at 1 s and 2 s after the start of
    the day, day 2 at 1 s and 2 s after its start. *)
Definition demo_logs (date : Z) : option (list JsObject) :=
  if date =? 1 then Some [demo_reading 86401000; demo_reading 86402000]
  else if date =? 2 then Some [demo_reading 172801000; demo_reading 172802000]
  else None.

(** The same surroundings in a zone with daylight saving, that of New York
    in 2024: UTC-5 until 2024-03-10 07:00 UTC, UTC-4 until 2024-11-03
    06:00 UTC, UTC-5 afterwards.  A local time that the clocks skip or
    show twice is read with the offset in force before the change. *)
Definition new_york_LocalTime (t : Z) : Z :=
  if t <? 1710054000000 then t - 18000000
  else if t <? 1730613600000 then t - 14400000
  else t - 18000000.

Definition new_york_UTC (t : Z) : Z :=
  if t <? 1710039600000 then t + 18000000
  else if t <? 1730599200000 then t + 14400000
  else t + 18000000.

Definition new_york_env (post_ok : nat -> bool) (fs : Z -> option (list JsObject)) : Env :=
  {| hrtime := fun n => 5000000 * Z.of_nat n;
     probe_result := fun _ _ => None;
     post_result := fun n _ => post_ok n;
     file_result := fun _ date => fs date;
     connect_result := fun _ => true;
     toISOString := fun ms => digits ms;
     numberToString := fun x => digits (Qfloor x);
     Date_parse := fun _ => None;
     LocalTime := new_york_LocalTime;
     UTC := new_york_UTC |}.

(** Day 20030 is 2024-11-03 and day 20031 is 2024-11-04; the first log
    holds readings at 12:00:01 and 12:00:02 UTC, the second at 00:00:01 and
    00:00:02 UTC. *)
Definition autumn_logs (date : Z) : option (list JsObject) :=
  if date =? 20030 then Some [demo_reading 1730635201000; demo_reading 1730635202000]
  else if date =? 20031 then Some [demo_reading 1730678401000; demo_reading 1730678402000]
  else None.

From Stdlib Require Import Sorted.

(** ** Start-up checks (lines 10-62)

    [process.env] gives a string or [undefined] for a name; [!v] holds for
    [undefined] and for the empty string.  The checks run in the order of
    the file, and the first that fails writes its message and exits with
    code 1. *)
Definition ProcessEnv := string -> option string.

(** [!v] *)
Definition js_not (v : option string) : bool :=
  match v with
  | None => true
  | Some s => String.eqb s ""%string
  end.

Inductive Startup : Type :=
| Exit (code : Z) (message : string)
| Running.

Definition startup_checks (penv : ProcessEnv) : Startup :=
  if js_not (penv "API_URL"%string)
  then Exit 1 "Error: API_URL is not defined in the .env file."%string
  else if js_not (penv "DEVICE_ID"%string)
  then Exit 1 "Error: DEVICE_ID is not defined in the .env file."%string
  else if match penv "DEVICE_ID"%string with
          | Some s => String.eqb s "tiltmeter_default"%string
          | None => false
          end
  then Exit 1 "Error: DEVICE_ID need to change in the .env file."%string
  else if js_not (penv "ANGLE_DIFFERENT_THERSHOLD"%string)
  then Exit 1 "Error: ANGLE_DIFFERENT_THERSHOLD is not defined in the .env file."%string
  else if js_not (penv "BACKUP_TCP_HOST"%string)
  then Exit 1 "Error: BACKUP_TCP_HOST is not defined in the .env file."%string
  else if js_not (penv "BACKUP_TCP_PORT"%string)
  then Exit 1 "Error: BACKUP_TCP_PORT is not defined in the .env file."%string
  else if js_not (penv "BACKUP_TCP_TEST"%string)
  then Exit 1 "Error: BACKUP_TCP_TEST is not defined in the .env file."%string
  else if js_not (penv "SAMPLE_RATE"%string)
  then Exit 1 "Error: SAMPLE_RATE is not defined in the .env file."%string
  else if js_not (penv "SERIALPORT_PATH"%string)
  then Exit 1 "Error: SERIALPORT_PATH is not defined in the .env file."%string
  else Running.

(** The names that the checks require, in the order they are checked. *)
Definition required_settings : list string :=
  [ "API_URL"%string; "DEVICE_ID"%string; "ANGLE_DIFFERENT_THERSHOLD"%string; "BACKUP_TCP_HOST"%string;
    "BACKUP_TCP_PORT"%string; "BACKUP_TCP_TEST"%string; "SAMPLE_RATE"%string; "SERIALPORT_PATH"%string ].

(** ** Clock anchors and the poll timer (lines 64-80, 265-272) *)

Definition READ_ACCELERATION_COMMAND : Buffer :=
  [0x50; 0x03; 0x00; 0x3D; 0x00; 0x06; 0x59; 0x85].

(** Lines 76-77 of syncTimeAndSchedule: the two anchors are taken
    together, [dateNow] being [Date.now()] and [hr] being
    [process.hrtime.bigint()]. *)
Definition syncTime (dateNow hr : Z) (w : World) : World :=
  {| dataBuffer := dataBuffer w; lastSuccessTime := lastSuccessTime w;
     startTime := dateNow; startHrtime := hr; tick := tick w |}.

(** The delay computed by scheduleSendCommand (line 267) from the seconds
    and milliseconds of the current time; [%] is the remainder that takes
    the sign of the dividend. *)
Definition msUntilNextMinute (sampleRate seconds milliseconds : Z) : Z :=
  sampleRate - Z.rem (seconds * 1000 + milliseconds) sampleRate.

(** ** More vocabulary *)

(** The days whose log file was read, oldest read first. *)
Definition read_dates (evs : list Event) : list Z :=
  flat_map (fun e => match e with ReadFile d _ => [d] | _ => [] end) evs.

(** The days reported as unreadable (line 222). *)
Definition read_errors (evs : list Event) : list Z :=
  flat_map (fun e => match e with Console (LogReadError d) => [d] | _ => [] end) evs.

(** The sensing times of the objects handed to the daily log. *)
Definition stamps (evs : list Event) : list Z :=
  flat_map (fun o => match sensing_time_of o with JsTime t => [t] | _ => [] end)
           (saved evs).

(** An entry lies in the window of an episode: [new Date] of its sensing
    time is a valid date after [last] and not after [t]. *)
Definition in_window (env : Env) (last t : Z) (e : JsObject) : Prop :=
  exists te, new_Date env (prop e "sensing_time"%string) = Some te /\ last < te <= t.

(** The monotonic clock never runs backwards. *)
Definition monotonic_clock (env : Env) : Prop :=
  forall n m, (n <= m)%nat -> hrtime env n <= hrtime env m.

(** [w'] is a later world of the same process: same anchors, no fewer
    questions asked. *)
Definition later (w w' : World) : Prop :=
  startTime w' = startTime w /\ startHrtime w' = startHrtime w
  /\ (tick w <= tick w')%nat.

(** A process environment with every setting present. *)
Definition demo_process_env (name : string) : option string :=
  if String.eqb name "API_URL"%string then Some "http://example.test/api"%string
  else if String.eqb name "DEVICE_ID"%string then Some "tiltmeter_01"%string
  else if String.eqb name "ANGLE_DIFFERENT_THERSHOLD"%string then Some "0.5"%string
  else if String.eqb name "BACKUP_TCP_HOST"%string then Some "127.0.0.1"%string
  else if String.eqb name "BACKUP_TCP_PORT"%string then Some "9000"%string
  else if String.eqb name "BACKUP_TCP_TEST"%string then Some "false"%string
  else if String.eqb name "SAMPLE_RATE"%string then Some "1000"%string
  else if String.eqb name "SERIALPORT_PATH"%string then Some "/dev/ttyUSB0"%string
  else None.

(** * Properties *)

(** ** 32-bit conversions that do nothing *)

Lemma to_int32_small (z : Z) : 0 <= z < 2 ^ 31 -> JsInt.to_int32 z = z.
Proof.
  intros H. unfold JsInt.to_int32.
  rewrite Z.mod_small by lia.
  destruct (z <? 2 ^ 31) eqn:E; [reflexivity|]. apply Z.ltb_ge in E. lia.
Qed.

Lemma lxor_bound (n a b : Z) :
  0 < n -> 0 <= a < 2 ^ n -> 0 <= b < 2 ^ n -> 0 <= Z.lxor a b < 2 ^ n.
Proof.
  intros Hn Ha Hb. split.
  - apply Z.lxor_nonneg. lia.
  - destruct (Z.eq_dec (Z.lxor a b) 0) as [->|Hne].
    + apply Z.pow_pos_nonneg; lia.
    + assert (Hpos : 0 < Z.lxor a b).
      { assert (0 <= Z.lxor a b) by (apply Z.lxor_nonneg; lia). lia. }
      apply Z.log2_lt_pow2; [exact Hpos|].
      eapply Z.le_lt_trans; [apply Z.log2_lxor; lia|].
      apply Z.max_lub_lt.
      * destruct (Z.eq_dec a 0) as [->|]; [simpl; lia|apply Z.log2_lt_pow2; lia].
      * destruct (Z.eq_dec b 0) as [->|]; [simpl; lia|apply Z.log2_lt_pow2; lia].
Qed.

Lemma shiftr1_bound (c : Z) : 0 <= c < 2 ^ 16 -> 0 <= Z.shiftr c 1 < 2 ^ 15.
Proof.
  intros H. rewrite Z.shiftr_div_pow2 by lia.
  change (2 ^ 1) with 2. change (2 ^ 16) with 65536 in H. change (2 ^ 15) with 32768.
  split; [apply Z.div_pos; lia|apply Z.div_lt_upper_bound; lia].
Qed.

Lemma fold_left_cons {A B : Type} (f : A -> B -> A) (b : B) (bs : list B) (a : A) :
  fold_left f (b :: bs) a = fold_left f bs (f a b).
Proof. reflexivity. Qed.

(** ** crc16Modbus computes CRC16/Modbus *)

Lemma shift1_range (c : Z) : 0 <= c < 2 ^ 16 -> 0 <= Crc16Ref.shift1 c < 2 ^ 16.
Proof.
  intros H. unfold Crc16Ref.shift1. pose proof (shiftr1_bound c H) as Hs.
  destruct (Z.odd c).
  - apply lxor_bound; [lia| lia |unfold Crc16Ref.poly; lia].
  - lia.
Qed.

Lemma crc_shift_ref (c : Z) : 0 <= c < 2 ^ 16 -> crc_shift c = Crc16Ref.shift1 c.
Proof.
  intros H. unfold crc_shift, Crc16Ref.shift1, JsInt.and, JsInt.sar, JsInt.xor, JsInt.truthy.
  pose proof (shiftr1_bound c H) as Hs.
  rewrite (to_int32_small c) by lia.
  change (JsInt.to_int32 1) with 1. change (1 mod 32) with 1.
  change (JsInt.to_int32 40961) with 40961.
  rewrite (to_int32_small (Z.shiftr c 1)) by lia.
  change 1 with (Z.ones 1) at 1. rewrite Z.land_ones by lia.
  change (2 ^ 1) with 2. rewrite Zmod_odd.
  destruct (Z.odd c); reflexivity.
Qed.

Lemma iter_shift_range (n : nat) (c : Z) :
  0 <= c < 2 ^ 16 -> 0 <= Nat.iter n Crc16Ref.shift1 c < 2 ^ 16.
Proof.
  intros H. induction n as [|n IH]; [exact H|].
  rewrite Nat.iter_succ. apply shift1_range, IH.
Qed.

Lemma iter_crc_shift_ref (n : nat) (c : Z) :
  0 <= c < 2 ^ 16 -> Nat.iter n crc_shift c = Nat.iter n Crc16Ref.shift1 c.
Proof.
  intros H. induction n as [|n IH]; [reflexivity|].
  rewrite !Nat.iter_succ, IH. apply crc_shift_ref, iter_shift_range, H.
Qed.

Lemma byte_in_16 (b : Z) : is_byte b -> 0 <= b < 2 ^ 16.
Proof. unfold is_byte. lia. Qed.

Lemma feed_range (r b : Z) :
  0 <= r < 2 ^ 16 -> is_byte b -> 0 <= Crc16Ref.feed r b < 2 ^ 16.
Proof.
  intros Hr Hb. unfold Crc16Ref.feed. apply iter_shift_range.
  apply lxor_bound; [lia|exact Hr|apply byte_in_16, Hb].
Qed.

Lemma crc_update_ref (r b : Z) :
  0 <= r < 2 ^ 16 -> is_byte b -> crc_update r b = Crc16Ref.feed r b.
Proof.
  intros Hr Hb. unfold crc_update, Crc16Ref.feed, JsInt.xor.
  pose proof (byte_in_16 b Hb).
  rewrite !to_int32_small by lia.
  apply iter_crc_shift_ref. apply lxor_bound; lia.
Qed.

Lemma run_range (bs : list Z) (r : Z) :
  0 <= r < 2 ^ 16 -> wf_buffer bs -> 0 <= Crc16Ref.run r bs < 2 ^ 16.
Proof.
  unfold Crc16Ref.run.
  revert r. induction bs as [|b bs IH]; intros r Hr Hwf; [exact Hr|].
  inversion Hwf; subst. rewrite fold_left_cons.
  apply IH; [apply feed_range; assumption|assumption].
Qed.

Lemma fold_crc_update_ref (bs : list Z) (r : Z) :
  0 <= r < 2 ^ 16 -> wf_buffer bs -> fold_left crc_update bs r = Crc16Ref.run r bs.
Proof.
  unfold Crc16Ref.run.
  revert r. induction bs as [|b bs IH]; intros r Hr Hwf.
  - reflexivity.
  - inversion Hwf as [|b' bs' Hb Hbs]; subst.
    rewrite !fold_left_cons, (crc_update_ref r b Hr Hb).
    apply IH; [apply feed_range; assumption|assumption].
Qed.

Lemma crc_register_ref (bs : Buffer) :
  wf_buffer bs -> crc_register bs = Crc16Ref.crc16 bs.
Proof.
  intros H. unfold crc_register, Crc16Ref.crc16, Crc16Ref.init.
  apply fold_crc_update_ref; [lia|exact H].
Qed.

Lemma crc16_range (bs : Buffer) : wf_buffer bs -> 0 <= Crc16Ref.crc16 bs < 2 ^ 16.
Proof. intros H. apply run_range; [unfold Crc16Ref.init; lia|exact H]. Qed.

(** The two bytes returned are the register, low byte first. *)
Lemma crc16Modbus_ref (bs : Buffer) :
  wf_buffer bs ->
  crc16Modbus bs = [Crc16Ref.crc16 bs mod 256; Crc16Ref.crc16 bs / 256].
Proof.
  intros H. unfold crc16Modbus. rewrite crc_register_ref by exact H.
  pose proof (crc16_range bs H) as Hr. set (r := Crc16Ref.crc16 bs) in *.
  unfold JsInt.and, JsInt.sar. rewrite (to_int32_small r) by lia.
  change (JsInt.to_int32 255) with 255. change (8 mod 32) with 8.
  assert (Hs : 0 <= Z.shiftr r 8 < 256).
  { rewrite Z.shiftr_div_pow2 by lia. change (2 ^ 8) with 256.
    split; [apply Z.div_pos; lia|apply Z.div_lt_upper_bound; lia]. }
  rewrite (to_int32_small (Z.shiftr r 8)) by lia.
  change 255 with (Z.ones 8). rewrite !Z.land_ones by lia.
  change (2 ^ 8) with 256. rewrite (Z.mod_small (Z.shiftr r 8)) by lia.
  rewrite Z.shiftr_div_pow2 by lia. reflexivity.
Qed.

Lemma buffer_equals_pair (a b x y : Z) :
  buffer_equals [a; b] [x; y] = true <-> a = x /\ b = y.
Proof.
  simpl. rewrite andb_true_r, andb_true_iff, !Z.eqb_eq. tauto.
Qed.

Lemma crc_trailer_match (bs : Buffer) (lo hi : Z) :
  wf_buffer bs -> is_byte lo -> is_byte hi ->
  (buffer_equals (crc16Modbus bs) [lo; hi] = true <-> Crc16Ref.crc16 bs = le16 lo hi).
Proof.
  intros H Hlo Hhi. rewrite crc16Modbus_ref by exact H.
  rewrite buffer_equals_pair. unfold le16, is_byte in *.
  pose proof (crc16_range bs H) as Hr. set (r := Crc16Ref.crc16 bs) in *.
  split.
  - intros [<- <-]. pose proof (Z.div_mod r 256). lia.
  - intros ->. replace (lo + 256 * hi) with (lo + hi * 256) by lia. split.
    + rewrite Z.mod_add by lia. apply Z.mod_small; lia.
    + rewrite Z.div_add by lia. rewrite Z.div_small by lia. lia.
Qed.

(** ** CRC16/Modbus is linear over exclusive or *)

Lemma odd_lxor (a b : Z) : Z.odd (Z.lxor a b) = xorb (Z.odd a) (Z.odd b).
Proof. rewrite <- !Z.bit0_odd. apply Z.lxor_spec. Qed.

Lemma lxor_cancel_r (x y p : Z) : Z.lxor (Z.lxor x p) (Z.lxor y p) = Z.lxor x y.
Proof.
  rewrite Z.lxor_assoc, (Z.lxor_comm y p), <- (Z.lxor_assoc p p y).
  rewrite Z.lxor_nilpotent, Z.lxor_0_l. reflexivity.
Qed.

Lemma shift1_lxor (a b : Z) :
  Crc16Ref.shift1 (Z.lxor a b) = Z.lxor (Crc16Ref.shift1 a) (Crc16Ref.shift1 b).
Proof.
  unfold Crc16Ref.shift1. rewrite odd_lxor, Z.shiftr_lxor.
  destruct (Z.odd a), (Z.odd b); cbn [xorb].
  - symmetry. apply lxor_cancel_r.
  - rewrite !Z.lxor_assoc. f_equal. apply Z.lxor_comm.
  - rewrite !Z.lxor_assoc. reflexivity.
  - reflexivity.
Qed.

Lemma iter_shift1_lxor (n : nat) (a b : Z) :
  Nat.iter n Crc16Ref.shift1 (Z.lxor a b)
  = Z.lxor (Nat.iter n Crc16Ref.shift1 a) (Nat.iter n Crc16Ref.shift1 b).
Proof.
  induction n as [|n IH]; [reflexivity|].
  rewrite !Nat.iter_succ, IH. apply shift1_lxor.
Qed.

Lemma feed_lxor (r d b : Z) :
  Crc16Ref.feed (Z.lxor r d) b
  = Z.lxor (Crc16Ref.feed r b) (Nat.iter 8 Crc16Ref.shift1 d).
Proof.
  unfold Crc16Ref.feed.
  rewrite Z.lxor_assoc, (Z.lxor_comm d b), <- Z.lxor_assoc.
  apply iter_shift1_lxor.
Qed.

Lemma feed_flip (r b m : Z) :
  Crc16Ref.feed r (Z.lxor b m)
  = Z.lxor (Crc16Ref.feed r b) (Nat.iter 8 Crc16Ref.shift1 m).
Proof.
  unfold Crc16Ref.feed. rewrite <- Z.lxor_assoc. apply iter_shift1_lxor.
Qed.

(** A difference in the register survives every further shift. *)
Lemma shift1_pos (c : Z) : 0 < c < 2 ^ 16 -> 0 < Crc16Ref.shift1 c < 2 ^ 16.
Proof.
  intros H. assert (Hr : 0 <= c < 2 ^ 16) by lia.
  pose proof (shift1_range c Hr) as Hrange.
  pose proof (shiftr1_bound c Hr) as Hs.
  enough (Crc16Ref.shift1 c <> 0) by lia.
  unfold Crc16Ref.shift1. destruct (Z.odd c) eqn:Hodd.
  - intros Hz. apply Z.lxor_eq in Hz. unfold Crc16Ref.poly in Hz.
    change (2 ^ 15) with 32768 in Hs. lia.
  - intros Hz. rewrite Z.shiftr_div_pow2 in Hz by lia. change (2 ^ 1) with 2 in Hz.
    pose proof (Zmod_odd c) as Hm. rewrite Hodd in Hm.
    pose proof (Z.div_mod c 2). lia.
Qed.

Lemma iter_shift1_pos (n : nat) (c : Z) :
  0 < c < 2 ^ 16 -> 0 < Nat.iter n Crc16Ref.shift1 c < 2 ^ 16.
Proof.
  intros H. induction n as [|n IH]; [exact H|].
  rewrite Nat.iter_succ. apply shift1_pos, IH.
Qed.

Lemma run_lxor (bs : list Z) (r d : Z) :
  0 < d < 2 ^ 16 ->
  exists d', 0 < d' < 2 ^ 16 /\
             Crc16Ref.run (Z.lxor r d) bs = Z.lxor (Crc16Ref.run r bs) d'.
Proof.
  unfold Crc16Ref.run. revert r d.
  induction bs as [|b bs IH]; intros r d Hd.
  - exists d. split; [exact Hd|reflexivity].
  - rewrite !fold_left_cons, feed_lxor.
    apply IH. apply iter_shift1_pos, Hd.
Qed.

Lemma bit_mask_range (j : Z) : 0 <= j < 8 -> 0 < 2 ^ j < 2 ^ 16.
Proof.
  intros H. split; [apply Z.pow_pos_nonneg; lia|].
  apply Z.pow_lt_mono_r; lia.
Qed.

(** Inverting one bit of the message changes the register. *)
Lemma run_flip_bit (bs : list Z) (i : nat) (j r : Z) :
  0 <= j < 8 -> (i < length bs)%nat ->
  exists d, 0 < d < 2 ^ 16 /\
            Crc16Ref.run r (flip_bit bs i j) = Z.lxor (Crc16Ref.run r bs) d.
Proof.
  intros Hj. revert i r.
  induction bs as [|b bs IH]; intros i r Hi; [simpl in Hi; lia|].
  destruct i as [|i]; cbn [flip_bit]; unfold Crc16Ref.run; rewrite !fold_left_cons.
  - rewrite feed_flip. apply run_lxor. apply iter_shift1_pos, bit_mask_range, Hj.
  - apply IH. simpl in Hi. lia.
Qed.

Lemma lxor_neq (x d : Z) : d <> 0 -> Z.lxor x d <> x.
Proof.
  intros Hd He. apply Hd.
  assert (H : d = Z.lxor x (Z.lxor x d)).
  { rewrite <- Z.lxor_assoc, Z.lxor_nilpotent, Z.lxor_0_l. reflexivity. }
  rewrite He, Z.lxor_nilpotent in H. exact H.
Qed.

Lemma crc16_flip_bit (bs : list Z) (i : nat) (j : Z) :
  0 <= j < 8 -> (i < length bs)%nat ->
  Crc16Ref.crc16 (flip_bit bs i j) <> Crc16Ref.crc16 bs.
Proof.
  intros Hj Hi. unfold Crc16Ref.crc16.
  destruct (run_flip_bit bs i j Crc16Ref.init Hj Hi) as [d [Hd ->]].
  apply lxor_neq. lia.
Qed.

(** *** [flip_bit] and the parts of a frame *)

Lemma flip_bit_length (buf : Buffer) (i : nat) (j : Z) :
  length (flip_bit buf i j) = length buf.
Proof.
  revert i. induction buf as [|b buf IH]; intros [|i]; cbn [flip_bit length];
    try reflexivity. rewrite IH. reflexivity.
Qed.

Lemma flip_bit_wf (buf : Buffer) (i : nat) (j : Z) :
  0 <= j < 8 -> wf_buffer buf -> wf_buffer (flip_bit buf i j).
Proof.
  intros Hj. unfold wf_buffer. revert i.
  induction buf as [|b buf IH]; intros i Hwf; [destruct i; exact Hwf|].
  inversion Hwf as [|b' buf' Hb Hbuf]; subst.
  destruct i as [|i]; cbn [flip_bit]; constructor; auto.
  unfold is_byte in *.
  assert (H8 : 0 <= Z.lxor b (2 ^ j) < 2 ^ 8).
  { apply lxor_bound; [lia|change (2 ^ 8) with 256; lia|].
    split; [apply Z.pow_nonneg; lia|apply Z.pow_lt_mono_r; lia]. }
  change (2 ^ 8) with 256 in H8. exact H8.
Qed.

Lemma firstn_flip_bit_lt (buf : Buffer) (n i : nat) (j : Z) :
  (i < n)%nat -> firstn n (flip_bit buf i j) = flip_bit (firstn n buf) i j.
Proof.
  revert n i. induction buf as [|b buf IH]; intros n i Hi.
  - destruct i; cbn [flip_bit]; rewrite firstn_nil; reflexivity.
  - destruct n as [|n]; [lia|]. destruct i as [|i]; cbn [flip_bit firstn].
    + reflexivity.
    + rewrite IH by lia. reflexivity.
Qed.

Lemma firstn_flip_bit_ge (buf : Buffer) (n i : nat) (j : Z) :
  (n <= i)%nat -> firstn n (flip_bit buf i j) = firstn n buf.
Proof.
  revert n i. induction buf as [|b buf IH]; intros n i Hi.
  - destruct i; reflexivity.
  - destruct n as [|n]; [reflexivity|]. destruct i as [|i]; [lia|].
    cbn [flip_bit firstn]. rewrite IH by lia. reflexivity.
Qed.

Lemma skipn_flip_bit_lt (buf : Buffer) (n i : nat) (j : Z) :
  (i < n)%nat -> skipn n (flip_bit buf i j) = skipn n buf.
Proof.
  revert n i. induction buf as [|b buf IH]; intros n i Hi.
  - destruct i; reflexivity.
  - destruct n as [|n]; [lia|]. destruct i as [|i]; cbn [flip_bit skipn].
    + reflexivity.
    + apply IH. lia.
Qed.

(** ** Running monadic programs *)

Lemma bind_run {A B : Type} (m : M A) (k : A -> M B) (w : World) :
  bind m k w
  = (result (k (result (m w)) (world_of (m w))),
     world_of (k (result (m w)) (world_of (m w))),
     events (m w) ++ events (k (result (m w)) (world_of (m w)))).
Proof.
  unfold bind, result, world_of, events.
  destruct (m w) as [[a w1] e1]. cbn [fst snd].
  destruct (k a w1) as [[b w2] e2]. reflexivity.
Qed.

Lemma events_bind {A B : Type} (m : M A) (k : A -> M B) (w : World) :
  events (bind m k w) = events (m w) ++ events (k (result (m w)) (world_of (m w))).
Proof. rewrite bind_run. reflexivity. Qed.

Lemma world_bind {A B : Type} (m : M A) (k : A -> M B) (w : World) :
  world_of (bind m k w) = world_of (k (result (m w)) (world_of (m w))).
Proof. rewrite bind_run. reflexivity. Qed.

Lemma result_bind {A B : Type} (m : M A) (k : A -> M B) (w : World) :
  result (bind m k w) = result (k (result (m w)) (world_of (m w))).
Proof. rewrite bind_run. reflexivity. Qed.

Ltac run_step :=
  repeat (rewrite ?events_bind, ?world_bind, ?result_bind;
          cbn [result world_of events fst snd ret emit log
               get_dataBuffer set_dataBuffer get_lastSuccessTime set_lastSuccessTime
               axios_post readLogFile tcp_connect probe getPreciseAbsoluteTime
               next_tick with_dataBuffer with_lastSuccessTime
               dataBuffer lastSuccessTime startTime startHrtime tick app]).

Lemma saved_app (a b : list Event) : saved (a ++ b) = saved a ++ saved b.
Proof. apply flat_map_app. Qed.

Lemma posts_at_app (s : PostSite) (a b : list Event) :
  posts_at s (a ++ b) = posts_at s a ++ posts_at s b.
Proof. apply flat_map_app. Qed.

Lemma posts_at_cons (s : PostSite) (e : Event) (evs : list Event) :
  posts_at s (e :: evs)
  = match e, s with
    | Post Primary o _, Primary => [o]
    | Post Resend o _, Resend => [o]
    | _, _ => []
    end ++ posts_at s evs.
Proof. reflexivity. Qed.

Lemma saved_cons (e : Event) (evs : list Event) :
  saved (e :: evs) = match e with Save o => [o] | _ => [] end ++ saved evs.
Proof. reflexivity. Qed.

Lemma readings_app (a b : list Event) : readings (a ++ b) = readings a ++ readings b.
Proof. unfold readings. rewrite saved_app. apply filter_app. Qed.

(** ** What the delivery functions leave alone *)

Lemma same_buffer_refl (w : World) : same_buffer w w.
Proof. repeat split. Qed.

Lemma same_buffer_trans (a b c : World) :
  same_buffer a b -> same_buffer b c -> same_buffer a c.
Proof. unfold same_buffer. intros (?&?&?) (?&?&?). repeat split; congruence. Qed.

Section Delivery.

Variable env : Env.
Variable cfg : Config.

Lemma resend_same_buffer (l : list JsObject) (w : World) :
  same_buffer w (world_of (resend env l w)).
Proof.
  revert w. induction l as [|e l IH]; intros w; cbn [resend].
  - apply same_buffer_refl.
  - run_step. destruct (post_result env (tick w) e); run_step.
    + eapply same_buffer_trans; [|apply IH]. repeat split.
    + repeat split.
Qed.

Lemma read_unsent_same_buffer (lt ct : option Z) (dates : list Z)
      (acc : list JsObject) (w : World) :
  same_buffer w (world_of (read_unsent env lt ct dates acc w)).
Proof.
  revert acc w. induction dates as [|d dates IH]; intros acc w; cbn [read_unsent].
  - apply same_buffer_refl.
  - run_step. destruct (file_result env (tick w) d); run_step.
    + eapply same_buffer_trans; [|apply IH]. repeat split.
    + eapply same_buffer_trans; [|apply IH]. repeat split.
Qed.

End Delivery.

Section Sending.

Variable env : Env.
Variable cfg : Config.

Lemma backup_never_enabled :
  strict_equals (JsString (BACKUP_TCP_TEST cfg)) (JsBool true) = false.
Proof. reflexivity. Qed.

(** When the primary post fails. *)
Lemma send_failure_run (payload : JsObject) (w : World) :
  post_result env (tick w) payload = false ->
  sendDataToTcpServer env cfg payload w
  = (tt, with_lastSuccessTime (prop payload "sensing_time") (next_tick w),
     [Console LogSending; Post Primary payload false; Console LogTransmissionError]).
Proof.
  intros Hfail. unfold sendDataToTcpServer.
  rewrite !bind_run. run_step. rewrite Hfail. run_step. reflexivity.
Qed.

End Sending.

Lemma episode_events_quiet (evs : list Event) :
  forallb episode_event evs = true ->
  saved evs = [] /\ posts_at Primary evs = [] /\ tcp_events evs = [].
Proof.
  induction evs as [|e evs IH]; intros H; [repeat split|].
  cbn [forallb] in H. apply andb_true_iff in H as [He Hevs].
  destruct (IH Hevs) as (Hs & Hp & Ht).
  destruct e as [l|[|] b ok|d ok|o|ok|s|]; try discriminate He;
    cbn [saved posts_at tcp_events flat_map filter app] in *;
    repeat split; assumption.
Qed.

Section Episode.

Variable env : Env.
Variable cfg : Config.

Lemma resend_episode (l : list JsObject) (w : World) :
  forallb episode_event (events (resend env l w)) = true.
Proof.
  revert w. induction l as [|e l IH]; intros w; cbn [resend]; [reflexivity|].
  run_step. destruct (post_result env (tick w) e); run_step.
  - cbn [forallb episode_event andb]. apply IH.
  - reflexivity.
Qed.

Lemma read_unsent_episode (lt ct : option Z) (dates : list Z)
      (acc : list JsObject) (w : World) :
  forallb episode_event (events (read_unsent env lt ct dates acc w)) = true.
Proof.
  revert acc w. induction dates as [|d dates IH]; intros acc w; cbn [read_unsent];
    [reflexivity|].
  run_step. destruct (file_result env (tick w) d); run_step;
    cbn [forallb episode_event andb]; apply IH.
Qed.

Lemma read_unsent_no_posts (s : PostSite) (lt ct : option Z) (dates : list Z)
      (acc : list JsObject) (w : World) :
  posts_at s (events (read_unsent env lt ct dates acc w)) = [].
Proof.
  revert acc w. induction dates as [|d dates IH]; intros acc w; cbn [read_unsent];
    [reflexivity|].
  run_step. destruct (file_result env (tick w) d); run_step;
    destruct s; cbn [posts_at flat_map app]; apply IH.
Qed.

Lemma backfill_episode (lt ct d : Z) (th : Q) (w : World) :
  forallb episode_event (events (backfill env lt ct d th w)) = true.
Proof.
  unfold backfill. run_step. cbn [forallb episode_event andb].
  rewrite forallb_app, read_unsent_episode. cbn [andb forallb episode_event].
  apply resend_episode.
Qed.

Lemma backfill_same_buffer (lt ct d : Z) (th : Q) (w : World) :
  same_buffer w (world_of (backfill env lt ct d th w)).
Proof.
  unfold backfill. run_step.
  eapply same_buffer_trans; [apply read_unsent_same_buffer|apply resend_same_buffer].
Qed.

Lemma gap_check_episode (payload : JsObject) (w : World) :
  forallb episode_event (events (gap_check env cfg payload w)) = true
  /\ same_buffer w (world_of (gap_check env cfg payload w)).
Proof.
  unfold gap_check. run_step. cbn [forallb episode_event andb].
  destruct (truthy (lastSuccessTime w)); [|split; [reflexivity|apply same_buffer_refl]].
  destruct (num_gt _ _); [|split; [reflexivity|apply same_buffer_refl]].
  destruct (new_Date env (lastSuccessTime w)) as [lt|];
    [|split; [reflexivity|apply same_buffer_refl]].
  destruct (new_Date env (prop payload "sensing_time")) as [ct|];
    [|split; [reflexivity|apply same_buffer_refl]].
  cbn [date_diff]. split; [apply backfill_episode|apply backfill_same_buffer].
Qed.

(** [sendDataToTcpServer], one case per outcome of the primary post. *)
Lemma send_run (payload : JsObject) (w : World) :
  sendDataToTcpServer env cfg payload w
  = if post_result env (tick w) payload
    then (tt,
          with_lastSuccessTime (prop payload "sensing_time")
            (world_of (gap_check env cfg payload (next_tick w))),
          Console LogSending :: Post Primary payload true
            :: events (gap_check env cfg payload (next_tick w)))
    else (tt, with_lastSuccessTime (prop payload "sensing_time") (next_tick w),
          [Console LogSending; Post Primary payload false; Console LogTransmissionError]).
Proof.
  destruct (post_result env (tick w) payload) eqn:Hok;
    [|apply send_failure_run, Hok].
  unfold sendDataToTcpServer.
  rewrite !bind_run. run_step. rewrite Hok.
  rewrite backup_never_enabled. run_step. rewrite app_nil_r.
  reflexivity.
Qed.

Lemma send_lastSuccessTime (payload : JsObject) (w : World) :
  lastSuccessTime (world_of (sendDataToTcpServer env cfg payload w))
  = prop payload "sensing_time".
Proof. rewrite send_run. destruct (post_result env (tick w) payload); reflexivity. Qed.

Lemma send_same_buffer (payload : JsObject) (w : World) :
  same_buffer w (world_of (sendDataToTcpServer env cfg payload w)).
Proof.
  rewrite send_run. destruct (post_result env (tick w) payload).
  - destruct (gap_check_episode payload (next_tick w)) as [_ (Hb & Hs & Hh)].
    repeat split; assumption.
  - repeat split.
Qed.

Lemma send_outputs (payload : JsObject) (w : World) :
  saved (events (sendDataToTcpServer env cfg payload w)) = []
  /\ posts_at Primary (events (sendDataToTcpServer env cfg payload w)) = [payload]
  /\ tcp_events (events (sendDataToTcpServer env cfg payload w)) = [].
Proof.
  rewrite send_run. destruct (post_result env (tick w) payload).
  - destruct (gap_check_episode payload (next_tick w)) as [He _].
    destruct (episode_events_quiet _ He) as (Hs & Hp & Ht).
    cbn [events snd saved posts_at tcp_events flat_map filter app].
    change (flat_map _ (events (gap_check env cfg payload (next_tick w))))
      with (saved (events (gap_check env cfg payload (next_tick w)))) at 1.
    rewrite Hs. fold (posts_at Primary (events (gap_check env cfg payload (next_tick w)))).
    rewrite Hp. fold (tcp_events (events (gap_check env cfg payload (next_tick w)))).
    rewrite Ht. repeat split.
  - repeat split.
Qed.

End Episode.

Section Gap.

Variable env : Env.
Variable cfg : Config.

Lemma backfill_announces (lt ct d : Z) (th : Q) (w : World) :
  backfill_started (events (backfill env lt ct d th w)) = true.
Proof. unfold backfill. run_step. reflexivity. Qed.

(** The events of a successful primary delivery, up to the gap check. *)
Lemma send_success_started (payload : JsObject) (w : World) (last t : Z) :
  lastSuccessTime w = JsTime last ->
  prop payload "sensing_time" = JsTime t ->
  post_result env (tick w) payload = true ->
  backfill_started (events (sendDataToTcpServer env cfg payload w))
  = match (inject_Z (t - last) ?= gap_threshold cfg)%Q with Gt => true | _ => false end.
Proof.
  intros Hlast Ht Hok. rewrite send_run, Hok. cbn [events snd].
  unfold gap_check. run_step. rewrite Hlast, Ht.
  cbn [truthy new_Date date_diff num_gt]. fold (gap_threshold cfg).
  unfold backfill_started. cbn [existsb orb].
  destruct (inject_Z (t - last) ?= gap_threshold cfg)%Q eqn:E; try reflexivity.
  apply backfill_announces.
Qed.

(** C6.  After a successful primary delivery with [lastSuccessTime] set, a
    backfill episode starts exactly when the time since [lastSuccessTime]
    is strictly greater than 1.5 times the sample period: a difference
    equal to 1.5 P starts none, and 1.5 P + 1 ms starts one. *)
Theorem gap_threshold_strict (payload : JsObject) (w : World) (last t : Z) :
  lastSuccessTime w = JsTime last ->
  prop payload "sensing_time" = JsTime t ->
  post_result env (tick w) payload = true ->
  let started := backfill_started (events (sendDataToTcpServer env cfg payload w)) in
  (started = true <-> (gap_threshold cfg < inject_Z (t - last))%Q)
  /\ ((inject_Z (t - last) == gap_threshold cfg)%Q -> started = false)
  /\ ((inject_Z (t - last) == gap_threshold cfg + 1)%Q -> started = true).
Proof.
  intros Hlast Ht Hok started. subst started.
  rewrite (send_success_started payload w last t Hlast Ht Hok).
  assert (Hiff : match (inject_Z (t - last) ?= gap_threshold cfg)%Q with
                 | Gt => true | _ => false end = true
                 <-> (gap_threshold cfg < inject_Z (t - last))%Q).
  { rewrite (Qgt_alt (inject_Z (t - last)) (gap_threshold cfg)).
    destruct (inject_Z (t - last) ?= gap_threshold cfg)%Q;
      split; intros H; try reflexivity; discriminate H. }
  split; [exact Hiff|]. split.
  - intros Heq. apply Qeq_alt in Heq. rewrite Heq. reflexivity.
  - intros Heq. apply Hiff. rewrite Heq.
    rewrite <- (Qplus_0_r (gap_threshold cfg)) at 1.
    apply Qplus_lt_r. reflexivity.
Qed.

End Gap.

Section Backfill.

Variable env : Env.
Variable cfg : Config.

(** *** The resend loop *)

Lemma last_default (l : list JsValue) (x d1 d2 : JsValue) :
  last (x :: l) d1 = last (x :: l) d2.
Proof.
  revert x. induction l as [|y l IH]; intros x; [reflexivity|].
  change (last (y :: l) d1 = last (y :: l) d2). apply IH.
Qed.

Lemma last_cons (e : JsObject) (l : list JsObject) (d : JsValue) :
  last (map sensing_time_of l) (prop e "sensing_time")
  = last (map sensing_time_of (e :: l)) d.
Proof.
  destruct l as [|e' l]; [reflexivity|].
  cbn [map]. rewrite (last_default _ _ _ d). reflexivity.
Qed.

Lemma resend_prefix (l : list JsObject) (w : World) :
  exists rest, l = posts_at Resend (events (resend env l w)) ++ rest.
Proof.
  revert w. induction l as [|e l IH]; intros w; cbn [resend].
  - exists []. reflexivity.
  - run_step. destruct (post_result env (tick w) e); run_step.
    + rewrite !posts_at_cons.
      destruct (IH (with_lastSuccessTime (prop e "sensing_time") (next_tick w)))
        as [rest Hrest].
      exists rest. cbn [app]. f_equal. exact Hrest.
    + exists l. reflexivity.
Qed.

Lemma resend_success (l : list JsObject) (w : World) :
  (forall i e, nth_error l i = Some e -> post_result env (tick w + i) e = true) ->
  posts_at Resend (events (resend env l w)) = l
  /\ lastSuccessTime (world_of (resend env l w))
     = last (map sensing_time_of l) (lastSuccessTime w)
  /\ tick (world_of (resend env l w)) = (tick w + length l)%nat.
Proof.
  revert w. induction l as [|e l IH]; intros w Hok; cbn [resend].
  - repeat split. cbn [resend ret world_of fst snd length]. lia.
  - assert (H0 : post_result env (tick w) e = true).
    { rewrite <- (Nat.add_0_r (tick w)). apply Hok. reflexivity. }
    run_step. rewrite H0. run_step.
    set (w1 := with_lastSuccessTime (prop e "sensing_time") (next_tick w)).
    destruct (IH w1) as (Hp & Hl & Ht).
    { intros i e' Hi. unfold w1; cbn [tick with_lastSuccessTime next_tick].
      replace (S (tick w) + i)%nat with (tick w + S i)%nat by lia.
      apply Hok. exact Hi. }
    rewrite !posts_at_cons, Hp, Hl, Ht. cbn [app]. repeat split.
    + apply last_cons.
    + unfold w1; cbn [tick with_lastSuccessTime next_tick length]. lia.
Qed.

Lemma resend_failure (pre post : list JsObject) (bad : JsObject) (w : World) :
  (forall i e, nth_error pre i = Some e -> post_result env (tick w + i) e = true) ->
  post_result env (tick w + length pre) bad = false ->
  posts_at Resend (events (resend env (pre ++ bad :: post) w)) = pre ++ [bad]
  /\ lastSuccessTime (world_of (resend env (pre ++ bad :: post) w))
     = last (map sensing_time_of pre) (lastSuccessTime w).
Proof.
  revert w. induction pre as [|e pre IH]; intros w Hok Hbad; cbn [app resend].
  - run_step. cbn [length] in Hbad. rewrite Nat.add_0_r in Hbad.
    rewrite Hbad. run_step. split; reflexivity.
  - assert (H0 : post_result env (tick w) e = true).
    { rewrite <- (Nat.add_0_r (tick w)). apply Hok. reflexivity. }
    run_step. rewrite H0. run_step.
    set (w1 := with_lastSuccessTime (prop e "sensing_time") (next_tick w)).
    destruct (IH w1) as (Hp & Hl).
    { intros i e' Hi. unfold w1; cbn [tick with_lastSuccessTime next_tick].
      replace (S (tick w) + i)%nat with (tick w + S i)%nat by lia.
      apply Hok. exact Hi. }
    { unfold w1; cbn [tick with_lastSuccessTime next_tick]. cbn [length] in Hbad.
      replace (S (tick w) + length pre)%nat with (tick w + S (length pre))%nat by lia.
      exact Hbad. }
    rewrite !posts_at_cons, Hp, Hl. cbn [app]. split; [reflexivity|].
    apply last_cons.
Qed.

(** *** Reading the daily logs *)

Lemma read_unsent_result (fs : Z -> option (list JsObject)) (last t : Z)
      (dates : list Z) (acc : list JsObject) (w : World) :
  (forall n d, file_result env n d = fs d) ->
  result (read_unsent env (Some last) (Some t) dates acc w)
  = acc ++ concat (map (day_candidates env fs last t) dates).
Proof.
  intros Hfs. revert acc w.
  induction dates as [|d dates IH]; intros acc w; cbn [read_unsent map concat].
  - cbn [ret result fst]. rewrite app_nil_r. reflexivity.
  - run_step. unfold day_candidates at 1. rewrite Hfs.
    destruct (fs d) as [entries|]; run_step; rewrite IH.
    + rewrite app_assoc. reflexivity.
    + reflexivity.
Qed.

(** Reading asks one question per date and leaves [lastSuccessTime]. *)
Lemma read_unsent_world (lt ct : option Z) (dates : list Z)
      (acc : list JsObject) (w : World) :
  tick (world_of (read_unsent env lt ct dates acc w)) = (tick w + length dates)%nat
  /\ lastSuccessTime (world_of (read_unsent env lt ct dates acc w))
     = lastSuccessTime w.
Proof.
  revert acc w. induction dates as [|d dates IH]; intros acc w; cbn [read_unsent].
  - cbn [ret world_of fst snd length]. split; [lia|reflexivity].
  - run_step. cbn [length].
    destruct (file_result env (tick w) d); run_step;
      match goal with
      | |- context [read_unsent env lt ct dates ?a ?w'] =>
          destruct (IH a w') as [Ht Hl]; rewrite Ht, Hl
      end; cbn [tick lastSuccessTime next_tick]; split; (lia || reflexivity).
Qed.

Lemma unsent_filter_spec (last t : Z) (e : JsObject) :
  unsent_filter env (Some last) (Some t) e = true <->
  exists te, new_Date env (prop e "sensing_time") = Some te
             /\ last < te <= t /\ is_reading e = true.
Proof.
  unfold unsent_filter. split.
  - intros H.
    apply andb_true_iff in H as [H Hz]. apply andb_true_iff in H as [H Hy].
    apply andb_true_iff in H as [H Hx]. apply andb_true_iff in H as [Hgt Hle].
    destruct (new_Date env (prop e "sensing_time")) as [te|];
      [|discriminate Hgt].
    cbn [date_gt date_le] in Hgt, Hle.
    apply Z.ltb_lt in Hgt. apply Z.leb_le in Hle.
    exists te. split; [reflexivity|]. split; [lia|].
    unfold is_reading. rewrite Hx, Hy, Hz. reflexivity.
  - intros (te & Hte & Hr & Hrd). unfold is_reading in Hrd.
    apply andb_true_iff in Hrd as [Hrd Hz]. apply andb_true_iff in Hrd as [Hx Hy].
    rewrite Hte, Hx, Hy, Hz. cbn [date_gt date_le]. rewrite !andb_true_r.
    apply andb_true_iff. split; [apply Z.ltb_lt|apply Z.leb_le]; lia.
Qed.

(** *** The range of dates *)

Lemma day_of_day_start (d : Z) : day_of (day_start d) = d.
Proof. unfold day_of, day_start. apply Z.div_mul. discriminate. Qed.

Lemma setDate_next_fixed :
  fixed_offset_zone env -> forall t, setDate_next env t = t + 86400000.
Proof.
  intros (offset & Hl & Hu) t. unfold setDate_next. rewrite Hl, Hu. lia.
Qed.

Lemma days_between_cons (s e : Z) :
  s <= e -> days_between s e = s :: days_between (s + 1) e.
Proof.
  intros H. unfold days_between.
  replace (Z.to_nat (e - s + 1)) with (S (Z.to_nat (e - (s + 1) + 1))) by lia.
  cbn [seq map]. rewrite Z.add_0_r. f_equal.
  rewrite <- seq_shift, map_map. apply map_ext. intros i. lia.
Qed.

Lemma days_between_nil (s e : Z) : e < s -> days_between s e = [].
Proof.
  intros H. unfold days_between.
  replace (Z.to_nat (e - s + 1)) with 0%nat by lia. reflexivity.
Qed.

(** With steps of exactly one day the loop lists the days of the range. *)
Lemma getDateRange_loop_fixed (fuel : nat) (s e : Z) (acc : list Z) :
  (forall t, setDate_next env t = t + 86400000) ->
  (Z.to_nat (e - s + 1) <= fuel)%nat ->
  getDateRange_loop env fuel (day_start s) (day_start e) acc
  = acc ++ days_between s e.
Proof.
  intros Hstep. revert s acc.
  induction fuel as [|fuel IH]; intros s acc Hfuel; cbn [getDateRange_loop].
  - rewrite days_between_nil by lia. rewrite app_nil_r. reflexivity.
  - destruct (day_start s <=? day_start e) eqn:E.
    + apply Z.leb_le in E. unfold day_start in E.
      rewrite Hstep, day_of_day_start.
      replace (day_start s + 86400000) with (day_start (s + 1))
        by (unfold day_start; lia).
      rewrite IH by lia. rewrite (days_between_cons s e) by lia.
      rewrite <- app_assoc. reflexivity.
    + apply Z.leb_gt in E. unfold day_start in E.
      rewrite days_between_nil by lia. rewrite app_nil_r. reflexivity.
Qed.

Lemma getDateRange_fixed (s e : Z) :
  fixed_offset_zone env -> getDateRange env s e = days_between s e.
Proof.
  intros Hz. unfold getDateRange.
  rewrite getDateRange_loop_fixed; [reflexivity|apply setDate_next_fixed, Hz|lia].
Qed.

(** *** The episode *)

(** With log files that do not change, a backfill episode reads its dates
    and then resends its candidates, from a world in which one question
    per date has been asked and [lastSuccessTime] is as before. *)
Lemma backfill_resend (fs : Z -> option (list JsObject)) (last t d : Z) (th : Q)
      (w : World) :
  (forall n day, file_result env n day = fs day) ->
  exists w',
    tick w' = (tick w + length (getDateRange env (day_of last) (day_of t)))%nat
    /\ lastSuccessTime w' = lastSuccessTime w
    /\ posts_at Resend (events (backfill env last t d th w))
       = posts_at Resend (events (resend env (episode_candidates env fs last t) w'))
    /\ world_of (backfill env last t d th w)
       = world_of (resend env (episode_candidates env fs last t) w').
Proof.
  intros Hfs.
  exists (world_of (read_unsent env (Some last) (Some t)
                      (getDateRange env (day_of last) (day_of t)) [] w)).
  destruct (read_unsent_world (Some last) (Some t)
              (getDateRange env (day_of last) (day_of t)) [] w) as [Ht Hl].
  split; [exact Ht|]. split; [exact Hl|].
  unfold backfill. run_step.
  rewrite (read_unsent_result fs last t _ [] w Hfs). cbn [app].
  rewrite posts_at_cons, posts_at_app, read_unsent_no_posts, posts_at_cons.
  cbn [app]. split; reflexivity.
Qed.

(** The posts of a backfill episode are the resends of its candidates. *)
Lemma backfill_posts (fs : Z -> option (list JsObject)) (last t d : Z) (th : Q)
      (w : World) :
  (forall n day, file_result env n day = fs day) ->
  exists w', posts_at Resend (events (backfill env last t d th w))
             = posts_at Resend (events (resend env (episode_candidates env fs last t) w')).
Proof.
  intros Hfs. destruct (backfill_resend fs last t d th w Hfs) as (w' & _ & _ & H & _).
  exists w'. exact H.
Qed.

(** The gap check when the gap is longer than the threshold. *)
Lemma gap_check_backfill_run (payload : JsObject) (w : World) (last t : Z) :
  truthy (lastSuccessTime w) = true ->
  new_Date env (lastSuccessTime w) = Some last ->
  new_Date env (prop payload "sensing_time") = Some t ->
  (gap_threshold cfg < inject_Z (t - last))%Q ->
  events (gap_check env cfg payload w)
  = Console LogSent :: events (backfill env last t (t - last) (gap_threshold cfg) w)
  /\ world_of (gap_check env cfg payload w)
     = world_of (backfill env last t (t - last) (gap_threshold cfg) w).
Proof.
  intros Hset Hlast Ht Hgap. unfold gap_check. run_step. rewrite Hset, Hlast, Ht.
  cbn [date_diff num_gt]. fold (gap_threshold cfg).
  apply (Qgt_alt (inject_Z (t - last)) (gap_threshold cfg)) in Hgap.
  rewrite Hgap. split; reflexivity.
Qed.

End Backfill.

(** ** The delivery pipeline: properties *)

(** C1.  When the primary delivery of a reading fails, the pipeline logs
    the failure, starts no backfill episode and posts nothing more for that
    reading; but [lastSuccessTime] does not keep its value: line 244 runs
    after the [catch] and stores the sensing time of the failed reading. *)
Theorem failed_delivery_overwrites_lastSuccessTime
        (env : Env) (cfg : Config) (payload : JsObject) (w : World) :
  post_result env (tick w) payload = false ->
  let r := sendDataToTcpServer env cfg payload w in
  events r = [Console LogSending; Post Primary payload false;
              Console LogTransmissionError]
  /\ backfill_started (events r) = false
  /\ posts_at Resend (events r) = []
  /\ lastSuccessTime (world_of r) = prop payload "sensing_time".
Proof.
  intros Hfail r. subst r. rewrite (send_failure_run env cfg payload w Hfail).
  repeat split.
Qed.

Lemma failed_delivery_overwrites_lastSuccessTime_witness :
  let env := demo_env (fun _ => false) (fun _ => None) in
  let w := demo_world [] (JsTime 86401000) in
  let r := sendDataToTcpServer env demo_cfg (demo_reading 86402000) w in
  lastSuccessTime w = JsTime 86401000
  /\ lastSuccessTime (world_of r) = JsTime 86402000.
Proof.
  intros env w r. split; [reflexivity|].
  apply (failed_delivery_overwrites_lastSuccessTime env demo_cfg
           (demo_reading 86402000) w).
  reflexivity.
Defined.

(** C5.  The secondary sink is never used, whatever string the
    configuration holds in [BACKUP_TCP_TEST]: line 247 compares that string
    with the boolean [true] by [===]. *)
Theorem secondary_sink_never_used
        (env : Env) (cfg : Config) (payload : JsObject) (w : World) :
  tcp_events (events (sendDataToTcpServer env cfg payload w)) = [].
Proof. apply send_outputs. Qed.

(** C8.  The candidates of a backfill episode are sent one after the
    other, and each success stores the timestamp of its candidate in
    [lastSuccessTime].  Take a call of [sendDataToTcpServer] whose primary
    post succeeds after a gap longer than the threshold, with log files
    that do not change meanwhile; its episode is the run of [backfill]
    that follows the three first events of the call.  When the candidates
    [pre] are delivered and the next one, [bad], fails, exactly [pre] and
    [bad] are attempted, in that order, nothing of what follows is, and
    the episode ends with [lastSuccessTime] at the timestamp of the last
    of [pre] (at its former value when [pre] is empty).  When every
    candidate is delivered, all are attempted in order and the episode
    ends with [lastSuccessTime] at the timestamp of the last candidate.
    In both cases the assignment of line 244 then replaces it by the
    sensing time of the current reading.  The outcome of a resend is that
    of the oracle at its turn: one question for the primary post, one for
    each date read, then one for each candidate. *)
Theorem backfill_stops_at_first_failure
        (env : Env) (cfg : Config) (fs : Z -> option (list JsObject))
        (payload : JsObject) (w : World) (t0 t : Z) :
  truthy (lastSuccessTime w) = true ->
  new_Date env (lastSuccessTime w) = Some t0 ->
  new_Date env (prop payload "sensing_time") = Some t ->
  post_result env (tick w) payload = true ->
  (gap_threshold cfg < inject_Z (t - t0))%Q ->
  (forall n d, file_result env n d = fs d) ->
  let candidates := episode_candidates env fs t0 t in
  let first := (tick w + 1 + length (getDateRange env (day_of t0) (day_of t)))%nat in
  let call := sendDataToTcpServer env cfg payload w in
  let episode := backfill env t0 t (t - t0) (gap_threshold cfg) (next_tick w) in
  events call
  = Console LogSending :: Post Primary payload true :: Console LogSent
      :: events episode
  /\ (forall pre bad post,
         candidates = pre ++ bad :: post ->
         (forall i e, nth_error pre i = Some e ->
                      post_result env (first + i) e = true) ->
         post_result env (first + length pre) bad = false ->
         posts_at Resend (events call) = pre ++ [bad]
         /\ lastSuccessTime (world_of episode)
            = last (map sensing_time_of pre) (lastSuccessTime w))
  /\ ((forall i e, nth_error candidates i = Some e ->
                   post_result env (first + i) e = true) ->
      posts_at Resend (events call) = candidates
      /\ lastSuccessTime (world_of episode)
         = last (map sensing_time_of candidates) (lastSuccessTime w))
  /\ lastSuccessTime (world_of call) = prop payload "sensing_time".
Proof.
  intros Hset Hlast Ht Hok Hgap Hfs candidates first call episode.
  destruct (gap_check_backfill_run env cfg payload (next_tick w) t0 t
              Hset Hlast Ht Hgap) as [Hev _].
  assert (Hcall : events call
                  = Console LogSending :: Post Primary payload true
                      :: Console LogSent :: events episode).
  { subst call episode. rewrite send_run, Hok. cbn [events snd].
    rewrite Hev. reflexivity. }
  destruct (backfill_resend env fs t0 t (t - t0) (gap_threshold cfg) (next_tick w) Hfs)
    as (w' & Htick & Hkeep & Hposts & Hworld).
  fold candidates in Hposts, Hworld. fold episode in Hposts, Hworld.
  cbn [tick lastSuccessTime next_tick] in Htick, Hkeep.
  assert (Hfirst : forall i, (tick w' + i)%nat = (first + i)%nat).
  { intros i. subst first. rewrite Htick. lia. }
  assert (Hsent : posts_at Resend (events call)
                  = posts_at Resend (events (resend env candidates w'))).
  { rewrite Hcall, !posts_at_cons. cbn [app]. exact Hposts. }
  split; [exact Hcall|]. split; [|split].
  - intros pre bad post Hcand Hpre Hbad.
    rewrite Hsent, Hworld, Hcand, <- Hkeep.
    apply resend_failure.
    + intros i e Hi. rewrite Hfirst. apply Hpre. exact Hi.
    + rewrite Hfirst. exact Hbad.
  - intros Hall. rewrite Hsent, Hworld, <- Hkeep.
    destruct (resend_success env candidates w') as (Hp & Hl & _).
    + intros i e Hi. rewrite Hfirst. apply Hall. exact Hi.
    + split; [exact Hp|exact Hl].
  - apply send_lastSuccessTime.
Qed.

Lemma backfill_stops_at_first_failure_witness :
  let env := demo_env (fun n => negb (n =? 4)%nat) demo_logs in
  let w := demo_world [] (JsTime 86400500) in
  let payload := demo_reading 172803000 in
  posts_at Resend (events (sendDataToTcpServer env demo_cfg payload w))
  = [demo_reading 172802000; demo_reading 172801000]
  /\ lastSuccessTime
       (world_of (backfill env 86400500 172803000 (172803000 - 86400500)
                    (gap_threshold demo_cfg) (next_tick w)))
     = JsTime 172802000.
Proof.
  intros env w payload.
  destruct (backfill_stops_at_first_failure env demo_cfg demo_logs payload w
              86400500 172803000 eq_refl eq_refl eq_refl eq_refl eq_refl
              (fun _ _ => eq_refl)) as (_ & Hfail & _ & _).
  apply (Hfail [demo_reading 172802000] (demo_reading 172801000)
               [demo_reading 86402000; demo_reading 86401000]).
  - reflexivity.
  - intros [|[|i]] e Hi; try discriminate Hi. reflexivity.
  - reflexivity.
Defined.

Section Order.

Variable env : Env.
Variable cfg : Config.

Lemma gap_check_backfill (payload : JsObject) (w : World) (last t : Z) :
  truthy (lastSuccessTime w) = true ->
  new_Date env (lastSuccessTime w) = Some last ->
  new_Date env (prop payload "sensing_time") = Some t ->
  (gap_threshold cfg < inject_Z (t - last))%Q ->
  events (gap_check env cfg payload w)
  = Console LogSent :: events (backfill env last t (t - last) (gap_threshold cfg) w).
Proof.
  intros Hset Hlast Ht Hgap.
  apply (gap_check_backfill_run env cfg payload w last t Hset Hlast Ht Hgap).
Qed.

Lemma episode_posts (fs : Z -> option (list JsObject)) (payload : JsObject)
      (w : World) (last t : Z) :
  truthy (lastSuccessTime w) = true ->
  new_Date env (lastSuccessTime w) = Some last ->
  new_Date env (prop payload "sensing_time") = Some t ->
  post_result env (tick w) payload = true ->
  (gap_threshold cfg < inject_Z (t - last))%Q ->
  (forall n d, file_result env n d = fs d) ->
  exists w', posts_at Resend (events (sendDataToTcpServer env cfg payload w))
             = posts_at Resend (events (resend env (episode_candidates env fs last t) w')).
Proof.
  intros Hset Hlast Ht Hok Hgap Hfs. rewrite send_run, Hok. cbn [events snd].
  rewrite (gap_check_backfill payload (next_tick w) last t Hset Hlast Ht Hgap).
  rewrite !posts_at_cons. cbn [app].
  apply backfill_posts. exact Hfs.
Qed.

End Order.

(** C7.  The candidates of an episode are the filtered entries of the
    files of the dates that [getDateRange] gives, and [getDateRange] steps
    from day to day on the local calendar while it names the days in UTC.
    In the zone of New York, with [lastSuccessTime] at 2024-11-03 12:00:00
    UTC, a reading taken at 2024-11-04 00:00:03 UTC and four logged
    readings in the window, two in the file of each day, the step from
    2024-11-03 00:00 UTC lands at 2024-11-04 01:00 UTC, after the end of
    the range: only the file of the first day is read, and the resends
    are e2, e1 instead of e4, e3, e2, e1. *)
Theorem backfill_skips_last_day_across_dst :
  let env := new_york_env (fun _ => true) autumn_logs in
  let lastTime := 1730635200000 in
  let currentPayloadTime := 1730678403000 in
  let e1 := demo_reading 1730635201000 in
  let e2 := demo_reading 1730635202000 in
  let e3 := demo_reading 1730678401000 in
  let e4 := demo_reading 1730678402000 in
  let call := sendDataToTcpServer env demo_cfg (demo_reading currentPayloadTime)
                (demo_world [] (JsTime lastTime)) in
  (day_of lastTime = 20030 /\ day_of currentPayloadTime = 20031)
  /\ (autumn_logs 20030 = Some [e1; e2] /\ autumn_logs 20031 = Some [e3; e4])
  /\ forallb (unsent_filter env (Some lastTime) (Some currentPayloadTime))
             [e1; e2; e3; e4] = true
  /\ setDate_next env (day_start 20030) = day_start 20031 + 3600000
  /\ getDateRange env 20030 20031 = [20030]
  /\ read_dates (events call) = [20030]
  /\ posts_at Resend (events call) = [e2; e1].
Proof. vm_compute. repeat split. Qed.

(** ** The frame decoder *)

Lemma run_eta {A : Type} (r : A * World * list Event) :
  (result r, world_of r, events r) = r.
Proof. destruct r as [[a w] e]. reflexivity. Qed.

Lemma run_ext {A : Type} (r : A * World * list Event) (a : A) (w : World)
      (e : list Event) :
  result r = a -> world_of r = w -> events r = e -> r = (a, w, e).
Proof. destruct r as [[a' w'] e']. cbn. intros -> -> ->. reflexivity. Qed.

Lemma buffer_equals_eq (a b : Buffer) : buffer_equals a b = true <-> a = b.
Proof.
  revert b. induction a as [|x a IH]; intros [|y b]; cbn [buffer_equals];
    try (split; [discriminate|discriminate]); [tauto|].
  rewrite andb_true_iff, Z.eqb_eq, IH. split.
  - intros [-> ->]. reflexivity.
  - intros H. inversion H. auto.
Qed.

Lemma slice_trailer (buf : Buffer) :
  (17 <= length buf)%nat -> slice 15 17 buf = [byteAt buf 15; byteAt buf 16].
Proof.
  intros H. unfold slice, byteAt.
  do 17 (destruct buf as [|? buf]; [cbn [length] in H; lia|]).
  reflexivity.
Qed.

Lemma Forall_firstn {A : Type} (P : A -> Prop) (n : nat) (l : list A) :
  Forall P l -> Forall P (firstn n l).
Proof.
  revert n. induction l as [|x l IH]; intros [|n] H; cbn [firstn]; auto.
  inversion H; subst. constructor; auto.
Qed.

Lemma Forall_skipn {A : Type} (P : A -> Prop) (n : nat) (l : list A) :
  Forall P l -> Forall P (skipn n l).
Proof.
  revert n. induction l as [|x l IH]; intros [|n] H; cbn [skipn]; auto.
  inversion H; subst. auto.
Qed.

Lemma slice_wf (a b : nat) (buf : Buffer) : wf_buffer buf -> wf_buffer (slice a b buf).
Proof. intros H. apply Forall_firstn, Forall_skipn, H. Qed.

Lemma byteAt_wf (buf : Buffer) (i : nat) : wf_buffer buf -> is_byte (byteAt buf i).
Proof.
  intros H. unfold byteAt. destruct (Nat.lt_ge_cases i (length buf)) as [Hi|Hi].
  - eapply Forall_forall; [exact H|]. apply nth_In, Hi.
  - rewrite nth_overflow by exact Hi. unfold is_byte. lia.
Qed.

(** The checksum test of line 114 is the comparison of the CRC16/Modbus
    of the first 15 bytes with the trailer. *)
Lemma crc_test_spec (buf : Buffer) :
  (17 <= length buf)%nat -> wf_buffer buf ->
  (buffer_equals (crc16Modbus (slice 0 15 buf)) (slice 15 17 buf) = true
   <-> crc_matches buf).
Proof.
  intros Hlen Hwf. rewrite slice_trailer by exact Hlen.
  apply crc_trailer_match; [apply slice_wf, Hwf|apply byteAt_wf, Hwf..].
Qed.

Section Decoder.

Variable env : Env.
Variable cfg : Config.

Lemma loop_body_run (w : World) :
  loop_body env cfg w
  = if buffer_equals (slice 0 3 (dataBuffer w)) magic then
      if buffer_equals (crc16Modbus (slice 0 15 (dataBuffer w)))
                       (slice 15 17 (dataBuffer w))
      then accept_frame env cfg (dataBuffer w) w
      else reject_frame env w
    else resync env (dataBuffer w) w.
Proof.
  unfold loop_body. rewrite bind_run.
  cbn [get_dataBuffer result world_of events fst snd app].
  destruct (buffer_equals (slice 0 3 (dataBuffer w)) magic);
    [destruct (buffer_equals (crc16Modbus (slice 0 15 (dataBuffer w)))
                             (slice 15 17 (dataBuffer w)))|];
    apply run_eta.
Qed.

Lemma accept_frame_run (buf : Buffer) (w : World) :
  accept_frame env cfg buf w
  = (true,
     with_dataBuffer
       (slice_from 17
          (dataBuffer (world_of (sendDataToTcpServer env cfg (reading_at env cfg buf w)
                                   (Nat.iter 6 next_tick w)))))
       (world_of (sendDataToTcpServer env cfg (reading_at env cfg buf w)
                    (Nat.iter 6 next_tick w))),
     Console (LogPayload (reading_at env cfg buf w))
       :: events (sendDataToTcpServer env cfg (reading_at env cfg buf w)
                    (Nat.iter 6 next_tick w))
       ++ [Save (reading_at env cfg buf w)]).
Proof.
  unfold accept_frame. apply run_ext; run_step; reflexivity.
Qed.

Lemma reject_frame_run (w : World) :
  reject_frame env w
  = (true, with_dataBuffer (slice_from 17 (dataBuffer w)) (next_tick w),
     [Console LogCrcFailed; Save (error_at env w "CRC validation failed")]).
Proof. unfold reject_frame. apply run_ext; run_step; reflexivity. Qed.

Lemma resync_found_run (buf : Buffer) (w : World) (index : nat) :
  indexOf buf 0x50 1 = Some index ->
  resync env buf w
  = (true, with_dataBuffer (slice_from index buf) w, [Console (LogDiscarding index)]).
Proof.
  intros H. unfold resync. rewrite H. apply run_ext; run_step; reflexivity.
Qed.

Lemma resync_none_run (buf : Buffer) (w : World) :
  indexOf buf 0x50 1 = None ->
  resync env buf w
  = (false, with_dataBuffer [] (next_tick w),
     [Console LogNoFrame; Save (error_at env w "No valid frame found")]).
Proof.
  intros H. unfold resync. rewrite H. apply run_ext; run_step; reflexivity.
Qed.

End Decoder.

(** ** [indexOf] *)

Lemma indexOf_Some (buf : Buffer) (v : Z) (off k : nat) :
  indexOf buf v off = Some k ->
  (off <= k < length buf)%nat /\ nth k buf 0 = v
  /\ (forall j, (off <= j < k)%nat -> nth j buf 0 <> v).
Proof.
  revert off k. induction buf as [|b buf IH]; intros off k H; [discriminate H|].
  cbn [indexOf] in H. destruct off as [|off].
  - destruct (b =? v) eqn:E.
    + injection H as <-. apply Z.eqb_eq in E. cbn [length nth].
      repeat split; [lia|lia|exact E|intros j Hj; lia].
    + destruct (indexOf buf v 0) as [k'|] eqn:E'; [|discriminate H].
      injection H as <-. destruct (IH _ _ E') as (Hr & Hv & Hmin).
      apply Z.eqb_neq in E. cbn [length nth]. repeat split; [lia|lia|exact Hv|].
      intros [|j] Hj; [exact E|]. apply Hmin. lia.
  - destruct (indexOf buf v off) as [k'|] eqn:E'; [|discriminate H].
    injection H as <-. destruct (IH _ _ E') as (Hr & Hv & Hmin).
    cbn [length nth]. repeat split; [lia|lia|exact Hv|].
    intros [|j] Hj; [lia|]. apply Hmin. lia.
Qed.




(** ** The loop *)

Section Loop.

Variable env : Env.
Variable cfg : Config.

Lemma iter_next_tick_same (n : nat) (w : World) :
  same_buffer w (Nat.iter n next_tick w).
Proof.
  induction n as [|n IH]; [apply same_buffer_refl|].
  rewrite Nat.iter_succ. destruct IH as (Hb & Hs & Hh). repeat split; assumption.
Qed.

Lemma accept_frame_buffer (buf : Buffer) (w : World) :
  dataBuffer (world_of (accept_frame env cfg buf w)) = slice_from 17 (dataBuffer w).
Proof.
  rewrite accept_frame_run. cbn [world_of fst snd with_dataBuffer dataBuffer].
  destruct (send_same_buffer env cfg (reading_at env cfg buf w) (Nat.iter 6 next_tick w))
    as (Hb & _).
  destruct (iter_next_tick_same 6 w) as (Hb' & _).
  rewrite Hb, Hb'. reflexivity.
Qed.

(** A turn that lets the loop go on has removed at least one byte. *)
Lemma loop_body_shrinks (w : World) :
  (17 <= length (dataBuffer w))%nat ->
  result (loop_body env cfg w) = true ->
  (length (dataBuffer (world_of (loop_body env cfg w))) < length (dataBuffer w))%nat.
Proof.
  intros Hlen. rewrite loop_body_run.
  destruct (buffer_equals (slice 0 3 (dataBuffer w)) magic).
  - destruct (buffer_equals _ _).
    + intros _. rewrite accept_frame_buffer. unfold slice_from.
      rewrite length_skipn. lia.
    + intros _. rewrite reject_frame_run.
      cbn [world_of fst snd with_dataBuffer dataBuffer]. unfold slice_from.
      rewrite length_skipn. lia.
  - destruct (indexOf (dataBuffer w) 80 1) as [k|] eqn:E.
    + intros _. rewrite (resync_found_run env _ w k E).
      cbn [world_of fst snd with_dataBuffer dataBuffer]. unfold slice_from.
      rewrite length_skipn. destruct (indexOf_Some _ _ _ _ E) as (Hk & _). lia.
    + rewrite (resync_none_run env _ w E). cbn. discriminate.
Qed.

Lemma data_loop_short (fuel : nat) (w : World) :
  (length (dataBuffer w) < 17)%nat -> data_loop env cfg fuel w = (tt, w, []).
Proof.
  intros H. destruct fuel as [|fuel]; [reflexivity|].
  cbn [data_loop]. rewrite bind_run.
  cbn [get_dataBuffer result world_of events fst snd app].
  destruct (17 <=? length (dataBuffer w))%nat eqn:E; [|reflexivity].
  apply Nat.leb_le in E. lia.
Qed.

Lemma data_loop_turn (fuel : nat) (w : World) :
  (17 <= length (dataBuffer w))%nat ->
  data_loop env cfg (S fuel) w
  = if result (loop_body env cfg w)
    then (result (data_loop env cfg fuel (world_of (loop_body env cfg w))),
          world_of (data_loop env cfg fuel (world_of (loop_body env cfg w))),
          events (loop_body env cfg w)
            ++ events (data_loop env cfg fuel (world_of (loop_body env cfg w))))
    else (tt, world_of (loop_body env cfg w), events (loop_body env cfg w)).
Proof.
  intros H. cbn [data_loop]. rewrite bind_run.
  cbn [get_dataBuffer result world_of events fst snd app].
  apply Nat.leb_le in H. rewrite H. rewrite bind_run.
  destruct (result (loop_body env cfg w)).
  - reflexivity.
  - cbn [ret result world_of events fst snd]. rewrite app_nil_r. reflexivity.
Qed.

(** The fuel given by [on_data] is never exhausted: any larger amount
    gives the same run. *)
Lemma data_loop_fuel (fuel fuel' : nat) (w : World) :
  (length (dataBuffer w) <= fuel)%nat -> (length (dataBuffer w) <= fuel')%nat ->
  data_loop env cfg fuel w = data_loop env cfg fuel' w.
Proof.
  revert fuel' w. induction fuel as [|fuel IH]; intros fuel' w H H'.
  - rewrite (data_loop_short fuel' w) by lia. reflexivity.
  - destruct (Nat.lt_ge_cases (length (dataBuffer w)) 17) as [Hs|Hl].
    + rewrite !data_loop_short by exact Hs. reflexivity.
    + destruct fuel' as [|fuel']; [lia|].
      rewrite !data_loop_turn by exact Hl.
      destruct (result (loop_body env cfg w)) eqn:Hr; [|reflexivity].
      pose proof (loop_body_shrinks w Hl Hr) as Hlt.
      rewrite (IH fuel' (world_of (loop_body env cfg w))) by lia. reflexivity.
Qed.

(** When the handler returns, fewer than 17 bytes are left. *)
Lemma data_loop_exhausts (fuel : nat) (w : World) :
  (length (dataBuffer w) <= fuel)%nat ->
  (length (dataBuffer (world_of (data_loop env cfg fuel w))) < 17)%nat.
Proof.
  revert w. induction fuel as [|fuel IH]; intros w H.
  - cbn. lia.
  - destruct (Nat.lt_ge_cases (length (dataBuffer w)) 17) as [Hs|Hl].
    + rewrite data_loop_short by exact Hs. exact Hs.
    + rewrite data_loop_turn by exact Hl.
      destruct (result (loop_body env cfg w)) eqn:Hr.
      * cbn [world_of fst snd]. apply IH.
        pose proof (loop_body_shrinks w Hl Hr). lia.
      * cbn [world_of fst snd]. revert Hr. rewrite loop_body_run.
        destruct (buffer_equals (slice 0 3 (dataBuffer w)) magic).
        -- destruct (buffer_equals _ _).
           ++ rewrite accept_frame_run. cbn. discriminate.
           ++ rewrite reject_frame_run. cbn. discriminate.
        -- destruct (indexOf (dataBuffer w) 80 1) as [k|] eqn:E.
           ++ rewrite (resync_found_run env _ w k E). cbn. discriminate.
           ++ rewrite (resync_none_run env _ w E). cbn. lia.
Qed.

Lemma on_data_run (inputData : Buffer) (w : World) :
  on_data env cfg inputData w
  = (tt,
     world_of (data_loop env cfg (length (dataBuffer w ++ inputData))
                 (with_dataBuffer (dataBuffer w ++ inputData) w)),
     Console LogSensing
       :: events (data_loop env cfg (length (dataBuffer w ++ inputData))
                    (with_dataBuffer (dataBuffer w ++ inputData) w))).
Proof.
  unfold on_data. apply run_ext; run_step; try reflexivity.
  destruct (data_loop env cfg _ _) as [[[] w'] e]. reflexivity.
Qed.

End Loop.

(** ** Decoding an axis *)

Lemma to_int32_signed (z : Z) : - 2 ^ 31 <= z < 2 ^ 31 -> JsInt.to_int32 z = z.
Proof.
  intros H. destruct (Z.neg_nonneg_cases z) as [Hneg|Hpos];
    [|apply to_int32_small; lia].
  unfold JsInt.to_int32.
  assert (Hm : z mod 2 ^ 32 = z + 2 ^ 32).
  { symmetry. apply (Z.mod_unique _ _ (-1)); lia. }
  rewrite Hm. destruct (z + 2 ^ 32 <? 2 ^ 31) eqn:E; [apply Z.ltb_lt in E; lia|lia].
Qed.

(** Bits that do not overlap: [|] is [+]. *)
Lemma lor_disjoint (m lo n : Z) :
  0 <= n -> 0 <= lo < 2 ^ n -> Z.lor (m * 2 ^ n) lo = m * 2 ^ n + lo.
Proof.
  intros Hn Hlo. rewrite <- Z.add_lor_land.
  assert (Hz : Z.land (m * 2 ^ n) lo = 0).
  { apply Z.bits_inj'. intros i Hi. rewrite Z.land_spec, Z.bits_0.
    destruct (Z.lt_ge_cases i n) as [Hlt|Hge].
    - rewrite Z.mul_pow2_bits_low by lia. reflexivity.
    - destruct (Z.eq_dec lo 0) as [->|Hne]; [rewrite Z.bits_0; apply andb_false_r|].
      rewrite (Z.bits_above_log2 lo i); [apply andb_false_r|lia|].
      assert (Z.log2 lo < n) by (apply Z.log2_lt_pow2; lia). lia. }
  rewrite Hz. lia.
Qed.

Lemma axis_int_value (buf : Buffer) (offset : nat) :
  wf_buffer buf ->
  axis_int buf offset
  = if byteAt buf (offset + 2) <? 128
    then axis_unsigned buf offset
    else axis_unsigned buf offset - 2 ^ 32.
Proof.
  intros Hwf. unfold axis_int, axis_unsigned.
  pose proof (byteAt_wf buf (offset + 2) Hwf) as Ha.
  pose proof (byteAt_wf buf (offset + 3) Hwf) as Hb.
  pose proof (byteAt_wf buf offset Hwf) as Hc.
  pose proof (byteAt_wf buf (offset + 1) Hwf) as Hd.
  set (a := byteAt buf (offset + 2)) in *. set (b := byteAt buf (offset + 3)) in *.
  set (c := byteAt buf offset) in *. set (d := byteAt buf (offset + 1)) in *.
  unfold is_byte in *. unfold JsInt.shl, JsInt.or.
  change (24 mod 32) with 24. change (16 mod 32) with 16. change (8 mod 32) with 8.
  rewrite (to_int32_signed a), (to_int32_signed b), (to_int32_signed c),
    (to_int32_signed d) by lia.
  rewrite !Z.shiftl_mul_pow2 by lia.
  change (2 ^ 24) with 16777216. change (2 ^ 16) with 65536. change (2 ^ 8) with 256.
  change (2 ^ 32) with 4294967296.
  set (s := if a <? 128 then a else a - 256).
  assert (Hs : -128 <= s < 128).
  { unfold s. destruct (a <? 128) eqn:E; [apply Z.ltb_lt in E|apply Z.ltb_ge in E]; lia. }
  assert (Ha24 : JsInt.to_int32 (a * 16777216) = s * 16777216).
  { unfold s. destruct (a <? 128) eqn:E; [apply Z.ltb_lt in E|apply Z.ltb_ge in E].
    - apply to_int32_signed. lia.
    - unfold JsInt.to_int32. change (2 ^ 32) with 4294967296.
      change (2 ^ 31) with 2147483648.
      rewrite Z.mod_small by lia.
      destruct (a * 16777216 <? 2147483648) eqn:E2;
        [apply Z.ltb_lt in E2; lia|lia]. }
  rewrite Ha24.
  rewrite (to_int32_signed (s * 16777216)), !(to_int32_signed (b * 65536)),
    !(to_int32_signed (c * 256)) by lia.
  assert (L1 : Z.lor (s * 16777216) (b * 65536) = s * 16777216 + b * 65536).
  { apply (lor_disjoint s (b * 65536) 24); lia. }
  rewrite L1, (to_int32_signed (s * 16777216 + b * 65536)) by lia.
  assert (L2 : Z.lor (s * 16777216 + b * 65536) (c * 256)
               = s * 16777216 + b * 65536 + c * 256).
  { replace (s * 16777216 + b * 65536) with ((s * 256 + b) * 2 ^ 16) by lia.
    apply lor_disjoint; lia. }
  rewrite L2, (to_int32_signed (s * 16777216 + b * 65536 + c * 256)) by lia.
  assert (L3 : Z.lor (s * 16777216 + b * 65536 + c * 256) d
               = s * 16777216 + b * 65536 + c * 256 + d).
  { replace (s * 16777216 + b * 65536 + c * 256)
      with (((s * 256 + b) * 256 + c) * 2 ^ 8) by lia.
    apply lor_disjoint; lia. }
  rewrite L3. unfold s. destruct (a <? 128); lia.
Qed.

(** *** [toFixed(3)] of a whole number of thousandths *)

Lemma thousandths_sign (n : Z) : ((inject_Z n / 1000)%Q ?= 0)%Q = (n ?= 0).
Proof. unfold Qcompare. cbn. rewrite !Z.mul_1_r. reflexivity. Qed.

Lemma thousandths_round (n : Z) :
  Qfloor (inject_Z n / 1000 * 1000 + (1 # 2))%Q = n.
Proof.
  unfold Qfloor. cbn. symmetry. apply (Z.div_unique _ _ _ 1000); lia.
Qed.

Lemma thousandths_round_opp (n : Z) :
  Qfloor (- (inject_Z n / 1000) * 1000 + (1 # 2))%Q = - n.
Proof.
  unfold Qfloor. cbn. symmetry. apply (Z.div_unique _ _ _ 1000); lia.
Qed.

Lemma toFixed3_thousandths (n : Z) :
  toFixed3 (inject_Z n / 1000)
  = ((if (n <? 0)%Z then "-" else "") ++ digits (Z.abs n / 1000)%Z ++ "."
     ++ pad3 (Z.abs n mod 1000)%Z)%string.
Proof.
  unfold toFixed3. rewrite thousandths_sign. unfold Z.ltb.
  destruct (n ?= 0) eqn:E.
  - apply Z.compare_eq in E. subst n. reflexivity.
  - rewrite thousandths_round_opp. rewrite Z.compare_lt_iff in E.
    rewrite Z.abs_neq by lia. reflexivity.
  - rewrite thousandths_round. rewrite Z.compare_gt_iff in E.
    rewrite Z.abs_eq by lia. reflexivity.
Qed.

Lemma payload_ang_x (cfg : Config) (buf : Buffer) (t : Z) (a b c d e : JsValue) :
  prop (make_payload cfg buf t a b c d e) "ang_x" = JsString (toFixed3 (axis_angle buf 3)).
Proof. reflexivity. Qed.

Lemma payload_ang_y (cfg : Config) (buf : Buffer) (t : Z) (a b c d e : JsValue) :
  prop (make_payload cfg buf t a b c d e) "ang_y" = JsString (toFixed3 (axis_angle buf 7)).
Proof. reflexivity. Qed.

Lemma payload_ang_z (cfg : Config) (buf : Buffer) (t : Z) (a b c d e : JsValue) :
  prop (make_payload cfg buf t a b c d e) "ang_z" = JsString (toFixed3 (axis_angle buf 11)).
Proof. reflexivity. Qed.

Lemma payload_is_reading (cfg : Config) (buf : Buffer) (t : Z) (a b c d e : JsValue) :
  is_reading (make_payload cfg buf t a b c d e) = true.
Proof. reflexivity. Qed.

Lemma errorLog_not_reading (t : Z) (reason : string) :
  is_reading (make_errorLog t reason) = false
  /\ is_error_record (make_errorLog t reason) = true.
Proof. split; reflexivity. Qed.

(** ** The frame decoder: acceptance *)

Lemma nth_flip_bit_other (buf : Buffer) (i n : nat) (j : Z) :
  i <> n -> nth n (flip_bit buf i j) 0 = nth n buf 0.
Proof.
  revert i n. induction buf as [|b buf IH]; intros i n Hne.
  - destruct i; reflexivity.
  - destruct i as [|i], n as [|n]; cbn [flip_bit nth].
    + congruence.
    + reflexivity.
    + reflexivity.
    + apply IH. congruence.
Qed.

Lemma readings_cons (e : Event) (evs : list Event) :
  readings (e :: evs)
  = match e with
    | Save o => if is_reading o then [o] else []
    | _ => []
    end ++ readings evs.
Proof.
  unfold readings. rewrite saved_cons, filter_app.
  destruct e; reflexivity.
Qed.

Section Acceptance.

Variable env : Env.
Variable cfg : Config.

Lemma accept_outputs (buf : Buffer) (w : World) :
  saved (events (accept_frame env cfg buf w)) = [reading_at env cfg buf w]
  /\ posts_at Primary (events (accept_frame env cfg buf w)) = [reading_at env cfg buf w]
  /\ readings (events (accept_frame env cfg buf w)) = [reading_at env cfg buf w].
Proof.
  rewrite accept_frame_run. cbn [events snd].
  destruct (send_outputs env cfg (reading_at env cfg buf w) (Nat.iter 6 next_tick w))
    as (Hs & Hp & _).
  assert (Hsaved : saved (Console (LogPayload (reading_at env cfg buf w))
                     :: events (sendDataToTcpServer env cfg (reading_at env cfg buf w)
                                  (Nat.iter 6 next_tick w))
                     ++ [Save (reading_at env cfg buf w)])
                   = [reading_at env cfg buf w]).
  { rewrite saved_cons, saved_app, Hs. reflexivity. }
  split; [exact Hsaved|]. split.
  - rewrite posts_at_cons, posts_at_app, Hp. reflexivity.
  - unfold readings. rewrite Hsaved. cbn [filter].
    unfold reading_at. rewrite payload_is_reading. reflexivity.
Qed.

Lemma reject_outputs (w : World) :
  saved (events (reject_frame env w)) = [error_at env w "CRC validation failed"]
  /\ posts_at Primary (events (reject_frame env w)) = []
  /\ posts_at Resend (events (reject_frame env w)) = []
  /\ readings (events (reject_frame env w)) = [].
Proof. rewrite reject_frame_run. repeat split. Qed.

Lemma loop_body_magic (w : World) :
  (17 <= length (dataBuffer w))%nat -> wf_buffer (dataBuffer w) ->
  slice 0 3 (dataBuffer w) = magic ->
  (crc_matches (dataBuffer w) ->
   loop_body env cfg w = accept_frame env cfg (dataBuffer w) w)
  /\ (~ crc_matches (dataBuffer w) -> loop_body env cfg w = reject_frame env w).
Proof.
  intros Hlen Hwf Hmagic. rewrite loop_body_run.
  apply buffer_equals_eq in Hmagic. rewrite Hmagic.
  pose proof (crc_test_spec (dataBuffer w) Hlen Hwf) as Hspec.
  destruct (buffer_equals (crc16Modbus (slice 0 15 (dataBuffer w)))
                          (slice 15 17 (dataBuffer w))).
  - split; [reflexivity|]. intros Hn. exfalso. apply Hn, Hspec. reflexivity.
  - split; [|reflexivity]. intros Hc. apply Hspec in Hc. discriminate Hc.
Qed.

Lemma flipped_frame_rejected (buf : Buffer) (i : nat) (j : Z) :
  (17 <= length buf)%nat -> wf_buffer buf -> slice 0 3 buf = magic ->
  crc_matches buf -> (3 <= i < 15)%nat -> 0 <= j < 8 ->
  (17 <= length (flip_bit buf i j))%nat /\ wf_buffer (flip_bit buf i j)
  /\ slice 0 3 (flip_bit buf i j) = magic /\ ~ crc_matches (flip_bit buf i j).
Proof.
  intros Hlen Hwf Hmagic Hcrc Hi Hj.
  split; [rewrite flip_bit_length; exact Hlen|].
  split; [apply flip_bit_wf; assumption|].
  split.
  - unfold slice in *. cbn [skipn Nat.sub] in *.
    rewrite firstn_flip_bit_ge by lia. exact Hmagic.
  - unfold crc_matches in *. unfold slice in *. cbn [skipn Nat.sub] in *.
    unfold byteAt in *. rewrite !nth_flip_bit_other by lia.
    rewrite <- Hcrc. rewrite firstn_flip_bit_lt by lia.
    apply crc16_flip_bit; [exact Hj|]. rewrite length_firstn. lia.
Qed.

Lemma accepted_reading (w : World) :
  (17 <= length (dataBuffer w))%nat -> wf_buffer (dataBuffer w) ->
  slice 0 3 (dataBuffer w) = magic -> crc_matches (dataBuffer w) ->
  readings (events (loop_body env cfg w)) = [reading_at env cfg (dataBuffer w) w].
Proof.
  intros Hlen Hwf Hmagic Hc.
  destruct (loop_body_magic w Hlen Hwf Hmagic) as [Hacc _].
  rewrite (Hacc Hc). apply accept_outputs.
Qed.

Lemma rejected_record (w : World) :
  (17 <= length (dataBuffer w))%nat -> wf_buffer (dataBuffer w) ->
  slice 0 3 (dataBuffer w) = magic -> ~ crc_matches (dataBuffer w) ->
  readings (events (loop_body env cfg w)) = []
  /\ saved (events (loop_body env cfg w)) = [error_at env w "CRC validation failed"].
Proof.
  intros Hlen Hwf Hmagic Hn.
  destruct (loop_body_magic w Hlen Hwf Hmagic) as [_ Hrej].
  rewrite (Hrej Hn). split; apply reject_outputs.
Qed.

(** C2.  A candidate of 17 buffered bytes that starts with the magic
    header yields a Reading exactly when CRC16/Modbus of its first 15 bytes
    equals bytes 15 and 16 read little-endian; otherwise it yields the
    ErrorRecord "CRC validation failed".  Inverting any single bit of the
    payload (bytes 3 to 14) of an accepted frame makes it rejected. *)
Theorem crc_acceptance (w : World) :
  (17 <= length (dataBuffer w))%nat -> wf_buffer (dataBuffer w) ->
  slice 0 3 (dataBuffer w) = magic ->
  ((exists p, readings (events (loop_body env cfg w)) = [p])
   <-> crc_matches (dataBuffer w))
  /\ (crc_matches (dataBuffer w) ->
      readings (events (loop_body env cfg w)) = [reading_at env cfg (dataBuffer w) w])
  /\ (~ crc_matches (dataBuffer w) ->
      readings (events (loop_body env cfg w)) = []
      /\ saved (events (loop_body env cfg w)) = [error_at env w "CRC validation failed"])
  /\ (crc_matches (dataBuffer w) ->
      forall (i : nat) (j : Z), (3 <= i < 15)%nat -> 0 <= j < 8 ->
      let w' := with_dataBuffer (flip_bit (dataBuffer w) i j) w in
      readings (events (loop_body env cfg w')) = []
      /\ saved (events (loop_body env cfg w')) = [error_at env w' "CRC validation failed"]).
Proof.
  intros Hlen Hwf Hmagic.
  pose proof (accepted_reading w Hlen Hwf Hmagic) as Hyes.
  pose proof (rejected_record w Hlen Hwf Hmagic) as Hno.
  split; [|split; [exact Hyes|split; [exact Hno|]]].
  - split.
    + intros [p Hp].
      destruct (Z.eq_dec (Crc16Ref.crc16 (slice 0 15 (dataBuffer w)))
                         (le16 (byteAt (dataBuffer w) 15) (byteAt (dataBuffer w) 16)))
        as [Heq|Hne]; [exact Heq|].
      destruct (Hno Hne) as [Hr _]. rewrite Hr in Hp. discriminate Hp.
    + intros Hc. eexists. apply Hyes, Hc.
  - intros Hc i j Hi Hj w'.
    destruct (flipped_frame_rejected (dataBuffer w) i j Hlen Hwf Hmagic Hc Hi Hj)
      as (Hlen' & Hwf' & Hmagic' & Hn').
    apply (rejected_record w' Hlen' Hwf' Hmagic' Hn').
Qed.

End Acceptance.

Lemma slice_group (buf : Buffer) (a b c d : Z) :
  (17 <= length buf)%nat -> slice 3 7 buf = [a; b; c; d] ->
  byteAt buf 3 = a /\ byteAt buf 4 = b /\ byteAt buf 5 = c /\ byteAt buf 6 = d.
Proof.
  intros H. unfold slice, byteAt.
  do 17 (destruct buf as [|? buf]; [cbn [length] in H; lia|]).
  cbn [skipn firstn Nat.sub nth]. intros E. injection E as -> -> -> ->.
  repeat split.
Qed.

Lemma axis_unsigned_range (buf : Buffer) (offset : nat) :
  wf_buffer buf -> 0 <= axis_unsigned buf offset < 2 ^ 32.
Proof.
  intros Hwf. unfold axis_unsigned.
  pose proof (byteAt_wf buf (offset + 2) Hwf) as Ha.
  pose proof (byteAt_wf buf (offset + 3) Hwf) as Hb.
  pose proof (byteAt_wf buf offset Hwf) as Hc.
  pose proof (byteAt_wf buf (offset + 1) Hwf) as Hd.
  unfold is_byte in *.
  change (2 ^ 24) with 16777216. change (2 ^ 16) with 65536. change (2 ^ 8) with 256.
  change (2 ^ 32) with 4294967296. lia.
Qed.

Lemma reading_axis (env : Env) (cfg : Config) (buf : Buffer) (w : World)
      (offset : nat) (key : string) :
  In (offset, key) axes ->
  prop (reading_at env cfg buf w) key = JsString (toFixed3 (axis_angle buf offset)).
Proof.
  unfold axes. cbn [In]. intros [E|[E|[E|[]]]]; injection E as <- <-; reflexivity.
Qed.

Section Angles.

Variable env : Env.
Variable cfg : Config.

(** C3, as the program has it.  A valid frame with the bytes 64 00 00 00
    at offsets 3 to 6 decodes, in the byte order offset+2, offset+3,
    offset+0, offset+1, to the integer 0x6400 = 25600 and gives
    ang_x = "25.600". *)
Theorem decode_example (w : World) :
  (17 <= length (dataBuffer w))%nat -> wf_buffer (dataBuffer w) ->
  slice 0 3 (dataBuffer w) = magic -> crc_matches (dataBuffer w) ->
  slice 3 7 (dataBuffer w) = [0x64; 0; 0; 0] ->
  exists p, readings (events (loop_body env cfg w)) = [p]
            /\ prop p "ang_x" = JsString "25.600".
Proof.
  intros Hlen Hwf Hmagic Hcrc Hgroup.
  exists (reading_at env cfg (dataBuffer w) w).
  split; [apply accepted_reading; assumption|].
  rewrite (reading_axis env cfg (dataBuffer w) w 3 "ang_x") by (left; reflexivity).
  unfold axis_angle. rewrite axis_int_value by exact Hwf.
  unfold axis_unsigned.
  destruct (slice_group (dataBuffer w) _ _ _ _ Hlen Hgroup) as (H3 & H4 & H5 & H6).
  change (3 + 2)%nat with 5%nat. change (3 + 3)%nat with 6%nat.
  change (3 + 1)%nat with 4%nat. rewrite H3, H4, H5, H6.
  reflexivity.
Qed.

(** C10.  The group of an axis is read as a signed 32-bit integer: in a
    valid frame whose byte at offset+2 of the group is 0x80 or more, the
    integer is the unsigned value minus 2^32, it is negative, and the angle
    emitted for that axis is its quotient by 1000, written with a minus
    sign and three decimals. *)
Theorem negative_angle (w : World) (offset : nat) (key : string) :
  (17 <= length (dataBuffer w))%nat -> wf_buffer (dataBuffer w) ->
  slice 0 3 (dataBuffer w) = magic -> crc_matches (dataBuffer w) ->
  In (offset, key) axes ->
  0x80 <= byteAt (dataBuffer w) (offset + 2) ->
  let n := axis_unsigned (dataBuffer w) offset - 2 ^ 32 in
  axis_int (dataBuffer w) offset = n
  /\ n < 0
  /\ exists p, readings (events (loop_body env cfg w)) = [p]
               /\ prop p key = JsString (toFixed3 (inject_Z n / 1000))
               /\ toFixed3 (inject_Z n / 1000)
                  = ("-" ++ digits (- n / 1000) ++ "." ++ pad3 (- n mod 1000))%string.
Proof.
  intros Hlen Hwf Hmagic Hcrc Hax Htop n.
  assert (Hint : axis_int (dataBuffer w) offset = n).
  { rewrite axis_int_value by exact Hwf.
    destruct (byteAt (dataBuffer w) (offset + 2) <? 128) eqn:E;
      [apply Z.ltb_lt in E; lia|reflexivity]. }
  assert (Hneg : n < 0).
  { pose proof (axis_unsigned_range (dataBuffer w) offset Hwf). unfold n. lia. }
  split; [exact Hint|]. split; [exact Hneg|].
  exists (reading_at env cfg (dataBuffer w) w).
  split; [apply accepted_reading; assumption|].
  split.
  - rewrite (reading_axis env cfg (dataBuffer w) w offset key Hax).
    unfold axis_angle. rewrite Hint. reflexivity.
  - rewrite toFixed3_thousandths.
    apply Z.ltb_lt in Hneg as Hb. rewrite Hb.
    rewrite Z.abs_neq by lia. reflexivity.
Qed.

End Angles.

(** The decode example fails as stated: the frame gives "25.600". *)
Lemma decode_example_as_stated_fails :
  ~ decode_example_as_stated (demo_env (fun _ => true) (fun _ => None)) demo_cfg
      (demo_world demo_frame JsNull).
Proof.
  intros H.
  destruct H as (p & Hp & Hx).
  - cbn. lia.
  - repeat constructor; unfold is_byte; lia.
  - reflexivity.
  - reflexivity.
  - reflexivity.
  - vm_compute in Hp. injection Hp as <-. discriminate Hx.
Qed.

Lemma decode_example_witness :
  exists p, readings (events (loop_body (demo_env (fun _ => true) (fun _ => None))
                                demo_cfg (demo_world demo_frame JsNull))) = [p]
            /\ prop p "ang_x" = JsString "25.600".
Proof.
  apply decode_example.
  - cbn. lia.
  - repeat constructor; unfold is_byte; lia.
  - reflexivity.
  - reflexivity.
  - reflexivity.
Defined.

Lemma negative_angle_witness :
  let w := demo_world demo_negative_frame JsNull in
  axis_int (dataBuffer w) 3 = -100
  /\ exists p, readings (events (loop_body (demo_env (fun _ => true) (fun _ => None))
                                   demo_cfg w)) = [p]
               /\ prop p "ang_x" = JsString "-0.100".
Proof.
  intros w.
  destruct (negative_angle (demo_env (fun _ => true) (fun _ => None)) demo_cfg w
              3 "ang_x") as (Hint & _ & p & Hp & Hk & _).
  - cbn. lia.
  - repeat constructor; unfold is_byte; lia.
  - reflexivity.
  - reflexivity.
  - left. reflexivity.
  - cbn. lia.
  - split; [exact Hint|]. exists p. split; [exact Hp|exact Hk].
Defined.

(** ** What reaches the primary sink *)

Section Forwarding.

Variable env : Env.
Variable cfg : Config.

Lemma unsent_filter_reading (lt ct : option Z) (e : JsObject) :
  unsent_filter env lt ct e = true -> is_reading e = true.
Proof.
  unfold unsent_filter, is_reading. intros H.
  apply andb_true_iff in H as [H Hz]. apply andb_true_iff in H as [H Hy].
  apply andb_true_iff in H as [_ Hx]. rewrite Hx, Hy, Hz. reflexivity.
Qed.

Lemma read_unsent_readings (lt ct : option Z) (dates : list Z)
      (acc : list JsObject) (w : World) :
  Forall (fun o => is_reading o = true) acc ->
  Forall (fun o => is_reading o = true) (result (read_unsent env lt ct dates acc w)).
Proof.
  revert acc w. induction dates as [|d dates IH]; intros acc w Hacc;
    cbn [read_unsent]; [exact Hacc|].
  run_step. destruct (file_result env (tick w) d) as [entries|]; run_step.
  - apply IH. apply Forall_app. split; [exact Hacc|].
    apply Forall_forall. intros e He. apply filter_In in He as [_ He].
    apply (unsent_filter_reading _ _ _ He).
  - apply IH. exact Hacc.
Qed.

Lemma resend_posts_among (P : JsObject -> Prop) (l : list JsObject) (w : World) :
  Forall P l -> Forall P (posts_at Resend (events (resend env l w))).
Proof.
  intros H. destruct (resend_prefix env l w) as [rest Hrest].
  rewrite Hrest in H. apply Forall_app in H. apply H.
Qed.

Lemma backfill_resends_readings (lt ct d : Z) (th : Q) (w : World) :
  Forall (fun o => is_reading o = true)
         (posts_at Resend (events (backfill env lt ct d th w))).
Proof.
  unfold backfill. run_step.
  rewrite posts_at_cons, posts_at_app, read_unsent_no_posts, posts_at_cons.
  cbn [app]. apply resend_posts_among. apply Forall_rev.
  apply read_unsent_readings. constructor.
Qed.

Lemma send_resends_readings (payload : JsObject) (w : World) :
  Forall (fun o => is_reading o = true)
         (posts_at Resend (events (sendDataToTcpServer env cfg payload w))).
Proof.
  rewrite send_run. destruct (post_result env (tick w) payload); [|constructor].
  cbn [events snd]. rewrite !posts_at_cons. cbn [app].
  unfold gap_check. run_step. rewrite posts_at_cons. cbn [app].
  destruct (truthy (lastSuccessTime w)); [|constructor].
  destruct (num_gt _ _); [|constructor].
  destruct (new_Date env (lastSuccessTime w)); [|constructor].
  destruct (new_Date env (prop payload "sensing_time")); [|constructor].
  cbn [date_diff]. apply backfill_resends_readings.
Qed.

Lemma forwarded_nil (l : list LogLine) : forwarded (map Console l).
Proof.
  induction l as [|x l IH]; [repeat split; constructor|exact IH].
Qed.

Lemma forwarded_error (l : LogLine) (t : Z) (reason : string) :
  forwarded [Console l; Save (make_errorLog t reason)].
Proof.
  split; [reflexivity|]. split; [|constructor].
  constructor; [right; reflexivity|constructor].
Qed.

Lemma forwarded_app (a b : list Event) : forwarded a -> forwarded b -> forwarded (a ++ b).
Proof.
  intros (Ha1 & Ha2 & Ha3) (Hb1 & Hb2 & Hb3). unfold forwarded.
  rewrite !posts_at_app, readings_app, saved_app, Ha1, Hb1.
  split; [reflexivity|]. split; [apply Forall_app; auto|].
  rewrite <- Ha1, <- Hb1.
  apply Forall_app in Ha3 as [Ha3 Ha4]. apply Forall_app in Hb3 as [Hb3 Hb4].
  repeat (apply Forall_app; split); assumption.
Qed.

Lemma loop_body_forwarded (w : World) : forwarded (events (loop_body env cfg w)).
Proof.
  rewrite loop_body_run.
  destruct (buffer_equals (slice 0 3 (dataBuffer w)) magic).
  - destruct (buffer_equals _ _).
    + destruct (accept_outputs env cfg (dataBuffer w) w) as (Hs & Hp & Hr).
      unfold forwarded. rewrite Hs, Hp, Hr. split; [reflexivity|].
      assert (Hrd : is_reading (reading_at env cfg (dataBuffer w) w) = true)
        by apply payload_is_reading.
      split; [constructor; [left; exact Hrd|constructor]|].
      apply Forall_app. split; [constructor; [exact Hrd|constructor]|].
      rewrite accept_frame_run. cbn [events snd].
      rewrite posts_at_cons, posts_at_app. cbn [app posts_at flat_map].
      rewrite app_nil_r. apply send_resends_readings.
    + rewrite reject_frame_run. apply forwarded_error.
  - destruct (indexOf (dataBuffer w) 80 1) as [k|] eqn:E.
    + rewrite (resync_found_run env _ w k E). apply (forwarded_nil [LogDiscarding k]).
    + rewrite (resync_none_run env _ w E). apply forwarded_error.
Qed.

Lemma data_loop_forwarded (fuel : nat) (w : World) :
  forwarded (events (data_loop env cfg fuel w)).
Proof.
  revert w. induction fuel as [|fuel IH]; intros w; [apply (forwarded_nil [])|].
  destruct (Nat.lt_ge_cases (length (dataBuffer w)) 17) as [Hs|Hl].
  - rewrite data_loop_short by exact Hs. apply (forwarded_nil []).
  - rewrite data_loop_turn by exact Hl.
    destruct (result (loop_body env cfg w)); cbn [events snd].
    + apply forwarded_app; [apply loop_body_forwarded|apply IH].
    + apply loop_body_forwarded.
Qed.

(** C4, as the program has it.  Every Reading that the decoder outputs is
    passed to the delivery pipeline, in the order of output, so the primary
    sink receives one request of line 189 per Reading; an ErrorRecord is
    only handed to the daily log, and nothing that is posted, at line 189
    or in a backfill, is an ErrorRecord. *)
Theorem readings_forwarded_errors_logged (inputData : Buffer) (w : World) :
  let evs := events (on_data env cfg inputData w) in
  posts_at Primary evs = readings evs
  /\ Forall (fun o => is_reading o = true \/ is_error_record o = true) (saved evs)
  /\ Forall (fun o => is_reading o = true) (posts_at Primary evs ++ posts_at Resend evs).
Proof.
  intros evs. subst evs. rewrite on_data_run. cbn [events snd].
  apply (forwarded_app [Console LogSensing]); [apply (forwarded_nil [LogSensing])|].
  apply data_loop_forwarded.
Qed.

End Forwarding.

(** An ErrorRecord is output and nothing is posted. *)
Lemma error_record_not_forwarded :
  ~ forwards_every_output (demo_env (fun _ => true) (fun _ => None)) demo_cfg
      demo_bad_frame (demo_world [] JsNull).
Proof. unfold forwards_every_output. vm_compute. discriminate. Qed.

(** ** Resynchronisation *)

Section Resync.

Variable env : Env.
Variable cfg : Config.



End Resync.

(** ** The theorems at work on concrete runs *)

Example crc16_check_value :
  Crc16Ref.crc16 [49; 50; 51; 52; 53; 54; 55; 56; 57] = 0x4B37.
Proof. reflexivity. Qed.

(** The poll command of line 64 carries its own checksum. *)
Example crc16Modbus_command :
  crc16Modbus [0x50; 0x03; 0x00; 0x3D; 0x00; 0x06] = [0x59; 0x85].
Proof. reflexivity. Qed.

Lemma demo_frame_wf : wf_buffer demo_frame.
Proof. repeat constructor; unfold is_byte; lia. Qed.

Lemma crc_acceptance_witness :
  let env := demo_env (fun _ => true) (fun _ => None) in
  let w := demo_world demo_frame JsNull in
  readings (events (loop_body env demo_cfg w)) = [reading_at env demo_cfg demo_frame w]
  /\ readings (events (loop_body env demo_cfg
                         (with_dataBuffer (flip_bit demo_frame 3 0) w))) = [].
Proof.
  intros env w.
  destruct (crc_acceptance env demo_cfg w) as (_ & Hyes & _ & Hflip).
  - cbn. lia.
  - exact demo_frame_wf.
  - reflexivity.
  - split; [apply Hyes; reflexivity|].
    apply (Hflip eq_refl 3%nat 0); lia.
Defined.

Lemma gap_threshold_strict_witness :
  let env := demo_env (fun _ => true) (fun _ => None) in
  let w := demo_world [] (JsTime 86401000) in
  backfill_started (events (sendDataToTcpServer env demo_cfg (demo_reading 86402500) w))
  = false
  /\ backfill_started (events (sendDataToTcpServer env demo_cfg (demo_reading 86402501) w))
     = true.
Proof.
  intros env w. split.
  - destruct (gap_threshold_strict env demo_cfg (demo_reading 86402500) w
                86401000 86402500 eq_refl eq_refl eq_refl) as (_ & Heq & _).
    apply Heq. reflexivity.
  - destruct (gap_threshold_strict env demo_cfg (demo_reading 86402501) w
                86401000 86402501 eq_refl eq_refl eq_refl) as (_ & _ & Hplus).
    apply Hplus. reflexivity.
Defined.


(** * Further properties of the program *)

(** ** crc16Modbus *)

Lemma shift1_even (m : Z) : Crc16Ref.shift1 (m * 2) = m.
Proof.
  unfold Crc16Ref.shift1.
  assert (Hodd : Z.odd (m * 2) = false).
  { rewrite Z.mul_comm, Z.odd_mul. reflexivity. }
  rewrite Hodd, Z.shiftr_div_pow2 by lia. change (2 ^ 1) with 2.
  apply Z.div_mul. lia.
Qed.

Lemma iter_shift1_low_zero (k : nat) (m : Z) :
  Nat.iter k Crc16Ref.shift1 (m * 2 ^ Z.of_nat k) = m.
Proof.
  revert m. induction k as [|k IH]; intros m.
  - cbn [Nat.iter nat_rect]. change (2 ^ Z.of_nat 0) with 1. lia.
  - rewrite Nat.iter_succ_r, Nat2Z.inj_succ, Z.pow_succ_r by lia.
    replace (m * (2 * 2 ^ Z.of_nat k)) with (m * 2 ^ Z.of_nat k * 2) by lia.
    rewrite shift1_even. apply IH.
Qed.

Lemma lxor_low_byte (r : Z) : 0 <= r -> Z.lxor r (r mod 256) = r / 256 * 256.
Proof.
  intros Hr. pose proof (Z.mod_pos_bound r 256 ltac:(lia)) as Hlo.
  assert (Hsplit : r = r / 256 * 2 ^ 8 + r mod 256).
  { change (2 ^ 8) with 256. pose proof (Z.div_mod r 256). lia. }
  assert (Hdisj : Z.land (r / 256 * 2 ^ 8) (r mod 256) = 0).
  { pose proof (lor_disjoint (r / 256) (r mod 256) 8 ltac:(lia)
                  ltac:(change (2 ^ 8) with 256; lia)) as Hl.
    pose proof (Z.add_lor_land (r / 256 * 2 ^ 8) (r mod 256)). lia. }
  rewrite Hsplit at 1.
  rewrite <- (lor_disjoint (r / 256) (r mod 256) 8)
    by (change (2 ^ 8) with 256; lia).
  rewrite <- (Z.lxor_lor _ _ Hdisj).
  rewrite Z.lxor_assoc, Z.lxor_nilpotent, Z.lxor_0_r. reflexivity.
Qed.

Lemma crc16Modbus_wf (buffer : Buffer) :
  wf_buffer buffer -> wf_buffer (crc16Modbus buffer).
Proof.
  intros Hwf. pose proof (crc16_range buffer Hwf) as Hr.
  rewrite (crc16Modbus_ref buffer Hwf).
  set (r := Crc16Ref.crc16 buffer) in *. change (2 ^ 16) with 65536 in Hr.
  assert (Hlo : is_byte (r mod 256)).
  { unfold is_byte. apply Z.mod_pos_bound. lia. }
  assert (Hhi : is_byte (r / 256)).
  { unfold is_byte. split; [apply Z.div_pos; lia|apply Z.div_lt_upper_bound; lia]. }
  constructor; [exact Hlo|]. constructor; [exact Hhi|]. constructor.
Qed.

(** X1.  On a buffer of bytes the 32-bit JavaScript arithmetic of
    crc16Modbus never leaves 16 bits: the two bytes returned are the low
    and the high byte of CRC16/Modbus of the buffer, each in 0..255. *)
Theorem crc16Modbus_refines (buffer : Buffer) :
  wf_buffer buffer ->
  crc16Modbus buffer
  = [Crc16Ref.crc16 buffer mod 256; Crc16Ref.crc16 buffer / 256]
  /\ wf_buffer (crc16Modbus buffer)
  /\ le16 (byteAt (crc16Modbus buffer) 0) (byteAt (crc16Modbus buffer) 1)
     = Crc16Ref.crc16 buffer.
Proof.
  intros Hwf. pose proof (crc16_range buffer Hwf) as Hr.
  pose proof (crc16Modbus_wf buffer Hwf) as Hout.
  rewrite (crc16Modbus_ref buffer Hwf) in *.
  set (r := Crc16Ref.crc16 buffer) in *. change (2 ^ 16) with 65536 in Hr.
  split; [reflexivity|]. split; [exact Hout|].
  unfold le16, byteAt. cbn [nth]. pose proof (Z.div_mod r 256). lia.
Qed.

Lemma crc16Modbus_refines_witness :
  crc16Modbus READ_ACCELERATION_COMMAND
  = [Crc16Ref.crc16 READ_ACCELERATION_COMMAND mod 256;
     Crc16Ref.crc16 READ_ACCELERATION_COMMAND / 256].
Proof.
  apply (crc16Modbus_refines READ_ACCELERATION_COMMAND).
  repeat constructor; unfold is_byte; lia.
Defined.

(** X2.  A message followed by the two bytes crc16Modbus returns for it
    has checksum zero: the register of crc16Modbus over the whole is 0, so
    crc16Modbus of it is [0; 0]. *)
Theorem crc16Modbus_residue (message : Buffer) :
  wf_buffer message ->
  crc_register (message ++ crc16Modbus message) = 0
  /\ crc16Modbus (message ++ crc16Modbus message) = [0; 0].
Proof.
  intros Hwf.
  assert (Hwf2 : wf_buffer (message ++ crc16Modbus message)).
  { apply Forall_app. split; [exact Hwf|]. apply crc16Modbus_wf, Hwf. }
  assert (Hzero : Crc16Ref.crc16 (message ++ crc16Modbus message) = 0).
  { rewrite (crc16Modbus_ref message Hwf).
    pose proof (crc16_range message Hwf) as Hr.
    unfold Crc16Ref.crc16, Crc16Ref.run in *. rewrite fold_left_app.
    set (r := fold_left Crc16Ref.feed message Crc16Ref.init) in *.
    rewrite !fold_left_cons. cbn [fold_left].
    unfold Crc16Ref.feed at 2. rewrite lxor_low_byte by lia.
    change 256 with (2 ^ Z.of_nat 8) at 2. rewrite iter_shift1_low_zero.
    unfold Crc16Ref.feed. rewrite Z.lxor_nilpotent. reflexivity. }
  split.
  - rewrite crc_register_ref by exact Hwf2. exact Hzero.
  - rewrite (crc16Modbus_ref _ Hwf2), Hzero. reflexivity.
Qed.

Lemma crc16Modbus_residue_witness :
  crc16Modbus (firstn 6 READ_ACCELERATION_COMMAND
               ++ crc16Modbus (firstn 6 READ_ACCELERATION_COMMAND)) = [0; 0].
Proof.
  apply (crc16Modbus_residue (firstn 6 READ_ACCELERATION_COMMAND)).
  repeat constructor; unfold is_byte; lia.
Defined.

(** ** getDateRange *)

Lemma days_between_In (s e d : Z) : In d (days_between s e) <-> s <= d <= e.
Proof.
  unfold days_between. rewrite in_map_iff. split.
  - intros (i & <- & Hi). apply in_seq in Hi. lia.
  - intros Hd. exists (Z.to_nat (d - s)). split; [lia|]. apply in_seq. lia.
Qed.

Lemma offsets_sorted (s : Z) (n start : nat) :
  StronglySorted Z.lt (map (fun i => s + Z.of_nat i) (seq start n)).
Proof.
  revert start. induction n as [|n IH]; intros start; cbn [seq map]; constructor.
  - apply IH.
  - apply Forall_forall. intros x Hx. apply in_map_iff in Hx as (i & <- & Hi).
    apply in_seq in Hi. lia.
Qed.

Lemma day_of_mono (a b : Z) : a <= b -> day_of a <= day_of b.
Proof. intros H. unfold day_of. apply Z.div_le_mono; lia. Qed.

Lemma demo_zone_fixed (post_ok : nat -> bool) (fs : Z -> option (list JsObject)) :
  fixed_offset_zone (demo_env post_ok fs).
Proof. exists 0. split; intros t; cbn [LocalTime UTC demo_env]; lia. Qed.

(** Two runs of the loop with enough fuel for the turns that remain give
    the same dates. *)
Lemma getDateRange_loop_fuel (env : Env) (endDate : Z) (fuel1 fuel2 : nat)
      (currentDate : Z) (dates : list Z) :
  zone_steps_forward env ->
  (currentDate <= endDate ->
   (endDate - currentDate) / 43200000 + 1 <= Z.of_nat fuel1) ->
  (currentDate <= endDate ->
   (endDate - currentDate) / 43200000 + 1 <= Z.of_nat fuel2) ->
  getDateRange_loop env fuel1 currentDate endDate dates
  = getDateRange_loop env fuel2 currentDate endDate dates.
Proof.
  intros Hstep. revert fuel2 currentDate dates.
  induction fuel1 as [|fuel1 IH]; intros fuel2 cur dates H1 H2.
  - assert (Hout : endDate < cur).
    { destruct (Z_lt_le_dec endDate cur) as [Hlt|Hle]; [exact Hlt|].
      specialize (H1 Hle).
      assert (0 <= (endDate - cur) / 43200000) by (apply Z.div_pos; lia).
      cbn in H1. lia. }
    destruct fuel2 as [|fuel2]; cbn [getDateRange_loop]; [reflexivity|].
    apply Z.leb_gt in Hout. rewrite Hout. reflexivity.
  - cbn [getDateRange_loop]. destruct (cur <=? endDate) eqn:E.
    + apply Z.leb_le in E. specialize (H1 E). specialize (H2 E).
      assert (Hpos : 0 <= (endDate - cur) / 43200000) by (apply Z.div_pos; lia).
      destruct fuel2 as [|fuel2]; [cbn in H2; lia|].
      cbn [getDateRange_loop]. apply Z.leb_le in E. rewrite E.
      apply Z.leb_le in E.
      assert (Hless : forall n : nat,
                 (endDate - cur) / 43200000 + 1 <= Z.of_nat (S n) ->
                 setDate_next env cur <= endDate ->
                 (endDate - setDate_next env cur) / 43200000 + 1 <= Z.of_nat n).
      { intros n Hn Hle. specialize (Hstep cur).
        assert (Hd : (endDate - setDate_next env cur) / 43200000
                     <= (endDate - cur + (-1) * 43200000) / 43200000)
          by (apply Z.div_le_mono; lia).
        rewrite Z.div_add in Hd by discriminate. lia. }
      apply IH; [apply Hless, H1|apply Hless, H2].
    + destruct fuel2 as [|fuel2]; cbn [getDateRange_loop]; [reflexivity|].
      rewrite E. reflexivity.
Qed.

Lemma new_york_steps_forward (post_ok : nat -> bool) (fs : Z -> option (list JsObject)) :
  zone_steps_forward (new_york_env post_ok fs).
Proof.
  intros t. unfold setDate_next. cbn [LocalTime UTC new_york_env].
  unfold new_york_LocalTime, new_york_UTC.
  repeat match goal with
         | |- context [?a <? ?b] => destruct (Z.ltb_spec a b)
         end; lia.
Qed.

(** X3.  In a local zone whose offset from UTC never changes, getDateRange
    gives exactly the days from the first to the last, both included, each
    once and in increasing order; it is empty when the last day precedes
    the first. *)
Theorem getDateRange_inclusive (env : Env) (startDate endDate : Z) :
  fixed_offset_zone env ->
  (forall d, In d (getDateRange env startDate endDate) <-> startDate <= d <= endDate)
  /\ StronglySorted Z.lt (getDateRange env startDate endDate)
  /\ length (getDateRange env startDate endDate) = Z.to_nat (endDate - startDate + 1)
  /\ (endDate < startDate -> getDateRange env startDate endDate = []).
Proof.
  intros Hz. rewrite (getDateRange_fixed env startDate endDate Hz).
  split; [intros d; apply days_between_In|].
  split; [apply offsets_sorted|].
  split.
  - unfold days_between. rewrite length_map, length_seq. reflexivity.
  - intros H. unfold days_between.
    replace (Z.to_nat (endDate - startDate + 1)) with 0%nat by lia. reflexivity.
Qed.

(** X4.  In a local zone whose offset from UTC never changes, the days
    read by a backfill episode cover its window: the day of every instant
    from [lastSuccessTime] to the sensing time of the reading is in the
    range computed at lines 201-203. *)
Theorem gap_days_cover_window (env : Env) (last t te : Z) :
  fixed_offset_zone env ->
  last <= te <= t ->
  In (day_of te) (getDateRange env (day_of last) (day_of t)).
Proof.
  intros Hz [H1 H2]. rewrite (getDateRange_fixed env _ _ Hz).
  apply days_between_In. split; apply day_of_mono; assumption.
Qed.

(** X19.  Where the offset of the local zone changes, the range is wrong.
    For two consecutive days: when the step on the local calendar from
    midnight UTC of the first day lands after midnight UTC of the second
    (the clocks were set back, west of Greenwich), the second day is
    missing; when it lands before midnight UTC of the second day (the
    clocks were set forward) and the step after that lands beyond, the
    first day is listed twice and the second is missing. *)
Theorem getDateRange_across_offset_change (env : Env) (d : Z) :
  (day_start (d + 1) < setDate_next env (day_start d) ->
   getDateRange env d (d + 1) = [d])
  /\ (day_start d <= setDate_next env (day_start d) < day_start (d + 1) ->
      day_start (d + 1) < setDate_next env (setDate_next env (day_start d)) ->
      getDateRange env d (d + 1) = [d; d]).
Proof.
  unfold getDateRange. replace (Z.to_nat (2 * (d + 1 - d) + 2)) with 4%nat by lia.
  assert (H0 : (day_start d <=? day_start (d + 1)) = true)
    by (apply Z.leb_le; unfold day_start; lia).
  split.
  - intros Hlong. cbn [getDateRange_loop]. rewrite H0.
    apply Z.leb_gt in Hlong. rewrite Hlong.
    cbn [app]. rewrite day_of_day_start. reflexivity.
  - intros [Hlo Hhi] Hnext. cbn [getDateRange_loop]. rewrite H0.
    assert (H1 : (setDate_next env (day_start d) <=? day_start (d + 1)) = true)
      by (apply Z.leb_le; lia).
    rewrite H1. apply Z.leb_gt in Hnext. rewrite Hnext.
    cbn [app]. rewrite day_of_day_start. f_equal. f_equal.
    unfold day_of, day_start in *.
    symmetry.
    apply (Z.div_unique _ _ d (setDate_next env (d * 86400000) - d * 86400000)); lia.
Qed.

(** X20.  The loop of getDateRange ends by its own test: in a zone where
    a step on the local calendar advances the instant by twelve hours or
    more, following the loop for longer than [getDateRange] does adds no
    date. *)
Theorem getDateRange_loop_ends (env : Env) (startDate endDate : Z) (fuel : nat) :
  zone_steps_forward env ->
  (Z.to_nat (2 * (endDate - startDate) + 2) <= fuel)%nat ->
  getDateRange_loop env fuel (day_start startDate) (day_start endDate) []
  = getDateRange env startDate endDate.
Proof.
  intros Hstep Hfuel. unfold getDateRange.
  assert (Hturns : day_start startDate <= day_start endDate ->
                   (day_start endDate - day_start startDate) / 43200000 + 1
                   = 2 * (endDate - startDate) + 1).
  { intros _. unfold day_start.
    replace (endDate * 86400000 - startDate * 86400000)
      with (2 * (endDate - startDate) * 43200000) by lia.
    rewrite Z.div_mul by discriminate. reflexivity. }
  apply getDateRange_loop_fuel; [exact Hstep| |];
    intros Hle; rewrite (Hturns Hle); unfold day_start in Hle; lia.
Qed.

Lemma getDateRange_inclusive_witness :
  let env := demo_env (fun _ => true) demo_logs in
  getDateRange env 5 4 = [] /\ length (getDateRange env 1 2) = 2%nat.
Proof.
  intros env.
  destruct (getDateRange_inclusive env 5 4 (demo_zone_fixed _ _)) as (_ & _ & _ & Hempty).
  destruct (getDateRange_inclusive env 1 2 (demo_zone_fixed _ _)) as (_ & _ & Hlen & _).
  split; [apply Hempty; lia|exact Hlen].
Defined.

Lemma gap_days_cover_window_witness :
  let env := demo_env (fun _ => true) demo_logs in
  In (day_of 172801000) (getDateRange env (day_of 86400500) (day_of 172803000)).
Proof.
  intros env. apply (gap_days_cover_window env 86400500 172803000 172801000).
  - apply demo_zone_fixed.
  - lia.
Defined.

Lemma getDateRange_across_offset_change_witness :
  let env := new_york_env (fun _ => true) autumn_logs in
  getDateRange env 20030 20031 = [20030]
  /\ getDateRange env 19792 19793 = [19792; 19792].
Proof.
  intros env. split.
  - apply (proj1 (getDateRange_across_offset_change env 20030)).
    vm_compute. reflexivity.
  - apply (proj2 (getDateRange_across_offset_change env 19792)).
    + vm_compute. split; [discriminate|reflexivity].
    + vm_compute. reflexivity.
Defined.

Lemma getDateRange_loop_ends_witness :
  let env := new_york_env (fun _ => true) autumn_logs in
  getDateRange_loop env 100 (day_start 20030) (day_start 20031) []
  = getDateRange env 20030 20031.
Proof.
  intros env. apply (getDateRange_loop_ends env 20030 20031 100).
  - apply new_york_steps_forward.
  - vm_compute. repeat constructor.
Defined.


(** ** The backfill episode *)

Lemma read_dates_app (a b : list Event) : read_dates (a ++ b) = read_dates a ++ read_dates b.
Proof. apply flat_map_app. Qed.

Lemma read_errors_app (a b : list Event) :
  read_errors (a ++ b) = read_errors a ++ read_errors b.
Proof. apply flat_map_app. Qed.

Lemma read_dates_cons (e : Event) (evs : list Event) :
  read_dates (e :: evs)
  = match e with ReadFile d _ => [d] | _ => [] end ++ read_dates evs.
Proof. reflexivity. Qed.

Lemma read_errors_cons (e : Event) (evs : list Event) :
  read_errors (e :: evs)
  = match e with Console (LogReadError d) => [d] | _ => [] end ++ read_errors evs.
Proof. reflexivity. Qed.

Section EpisodeReads.

Variable env : Env.
Variable cfg : Config.

Lemma resend_reads_nothing (l : list JsObject) (w : World) :
  read_dates (events (resend env l w)) = []
  /\ read_errors (events (resend env l w)) = [].
Proof.
  revert w. induction l as [|e l IH]; intros w; cbn [resend]; [split; reflexivity|].
  run_step. destruct (post_result env (tick w) e); run_step.
  - rewrite !read_dates_cons, !read_errors_cons. cbn [app]. apply IH.
  - split; reflexivity.
Qed.

Lemma read_unsent_reads (fs : Z -> option (list JsObject)) (lt ct : option Z)
      (dates : list Z) (acc : list JsObject) (w : World) :
  read_dates (events (read_unsent env lt ct dates acc w)) = dates
  /\ ((forall n d, file_result env n d = fs d) ->
      read_errors (events (read_unsent env lt ct dates acc w))
      = filter (fun d => match fs d with Some _ => false | None => true end) dates).
Proof.
  revert acc w. induction dates as [|d dates IH]; intros acc w; cbn [read_unsent];
    [split; reflexivity|].
  run_step. split.
  - destruct (file_result env (tick w) d); run_step;
      rewrite !read_dates_cons; cbn [app]; f_equal; apply IH.
  - intros Hfs. cbn [filter]. rewrite <- (Hfs (tick w) d).
    destruct (file_result env (tick w) d); run_step;
      rewrite !read_errors_cons; cbn [app]; [|f_equal]; apply IH; exact Hfs.
Qed.

Lemma send_gap_events (payload : JsObject) (w : World) (last t : Z) :
  truthy (lastSuccessTime w) = true ->
  new_Date env (lastSuccessTime w) = Some last ->
  new_Date env (prop payload "sensing_time") = Some t ->
  post_result env (tick w) payload = true ->
  (gap_threshold cfg < inject_Z (t - last))%Q ->
  events (sendDataToTcpServer env cfg payload w)
  = Console LogSending :: Post Primary payload true :: Console LogSent
      :: events (backfill env last t (t - last) (gap_threshold cfg) (next_tick w)).
Proof.
  intros Hset Hlast Ht Hok Hgap. rewrite send_run, Hok. cbn [events snd].
  rewrite (gap_check_backfill env cfg payload (next_tick w) last t Hset Hlast Ht Hgap).
  reflexivity.
Qed.

(** The files read by an episode are those of the dates of getDateRange,
    in its order. *)
Lemma episode_reads (fs : Z -> option (list JsObject))
      (payload : JsObject) (w : World) (last t : Z) :
  truthy (lastSuccessTime w) = true ->
  new_Date env (lastSuccessTime w) = Some last ->
  new_Date env (prop payload "sensing_time") = Some t ->
  post_result env (tick w) payload = true ->
  (gap_threshold cfg < inject_Z (t - last))%Q ->
  let evs := events (sendDataToTcpServer env cfg payload w) in
  read_dates evs = getDateRange env (day_of last) (day_of t)
  /\ ((forall n d, file_result env n d = fs d) ->
      read_errors evs
      = filter (fun d => match fs d with Some _ => false | None => true end)
               (getDateRange env (day_of last) (day_of t))).
Proof.
  intros Hset Hlast Ht Hok Hgap evs. subst evs.
  rewrite (send_gap_events payload w last t Hset Hlast Ht Hok Hgap).
  unfold backfill. run_step.
  rewrite !read_dates_cons, !read_errors_cons. cbn [app].
  rewrite read_dates_app, read_errors_app, !read_dates_cons, !read_errors_cons.
  cbn [app].
  destruct (read_unsent_reads fs (Some last) (Some t)
              (getDateRange env (day_of last) (day_of t)) [] (next_tick w)) as [Hd He].
  match goal with
  | |- context [resend env ?l ?w'] =>
      destruct (resend_reads_nothing l w') as [Hrd Hre]; rewrite Hrd, Hre
  end.
  rewrite !app_nil_r. split; [exact Hd|exact He].
Qed.

(** X5.  In a local zone whose offset from UTC never changes, a backfill
    episode reads the log file of every day from that of [lastSuccessTime]
    to that of the reading exactly once, in day order, whether or not a
    read fails: a day whose file cannot be read is reported and skipped,
    and the later days are still read. *)
Theorem episode_reads_every_day (fs : Z -> option (list JsObject))
        (payload : JsObject) (w : World) (last t : Z) :
  fixed_offset_zone env ->
  truthy (lastSuccessTime w) = true ->
  new_Date env (lastSuccessTime w) = Some last ->
  new_Date env (prop payload "sensing_time") = Some t ->
  post_result env (tick w) payload = true ->
  (gap_threshold cfg < inject_Z (t - last))%Q ->
  let evs := events (sendDataToTcpServer env cfg payload w) in
  read_dates evs = days_between (day_of last) (day_of t)
  /\ ((forall n d, file_result env n d = fs d) ->
      read_errors evs
      = filter (fun d => match fs d with Some _ => false | None => true end)
               (days_between (day_of last) (day_of t))).
Proof.
  intros Hz Hset Hlast Ht Hok Hgap evs. subst evs.
  rewrite <- (getDateRange_fixed env _ _ Hz).
  apply episode_reads; assumption.
Qed.

Lemma read_unsent_filtered (lt ct : option Z) (dates : list Z)
      (acc : list JsObject) (w : World) :
  Forall (fun o => unsent_filter env lt ct o = true) acc ->
  Forall (fun o => unsent_filter env lt ct o = true)
         (result (read_unsent env lt ct dates acc w)).
Proof.
  revert acc w. induction dates as [|d dates IH]; intros acc w Hacc;
    cbn [read_unsent]; [exact Hacc|].
  run_step. destruct (file_result env (tick w) d) as [entries|]; run_step.
  - apply IH. apply Forall_app. split; [exact Hacc|].
    apply Forall_forall. intros e He. apply filter_In in He as [_ He]. exact He.
  - apply IH. exact Hacc.
Qed.

(** X6.  Nothing outside the window is ever resent.  Whatever the log
    files hold, whatever the zone and the outcome of the posts, when
    [new Date] of [lastSuccessTime] is the instant [last] and [new Date] of
    the sensing time of the reading is [t], every entry resent by a call
    of sendDataToTcpServer has a sensing time of which [new Date] makes a
    valid date after [last] and not after [t], and carries the three
    angles.  The sensing time of such an entry need not be a string: a
    number of milliseconds in the window passes as well. *)
Theorem resends_stay_in_window (payload : JsObject) (w : World) (last t : Z) :
  new_Date env (lastSuccessTime w) = Some last ->
  new_Date env (prop payload "sensing_time") = Some t ->
  Forall (fun e => in_window env last t e /\ is_reading e = true)
         (posts_at Resend (events (sendDataToTcpServer env cfg payload w))).
Proof.
  intros Hlast Ht. rewrite send_run.
  destruct (post_result env (tick w) payload); [|constructor].
  cbn [events snd]. rewrite !posts_at_cons. cbn [app].
  unfold gap_check. run_step. rewrite posts_at_cons. cbn [app].
  destruct (truthy (lastSuccessTime w)); [|constructor].
  rewrite Hlast, Ht. cbn [date_diff].
  destruct (num_gt _ _); [|constructor].
  unfold backfill. run_step.
  rewrite posts_at_cons, posts_at_app, read_unsent_no_posts, posts_at_cons.
  cbn [app]. apply resend_posts_among. apply Forall_rev.
  eapply Forall_impl; [|apply read_unsent_filtered; constructor].
  intros e He. apply unsent_filter_spec in He as (te & Hte & Hr & Hrd).
  split; [exists te; split; assumption|exact Hrd].
Qed.

(** X7.  In a local zone whose offset from UTC never changes, no entry of
    the window is missed: when the log files do not change during the
    episode and every resend succeeds, an entry is resent exactly when it
    stands in the file of a day from that of [lastSuccessTime] to that of
    the reading, lies in the window and carries the three angles. *)
Theorem backfill_resends_whole_window (fs : Z -> option (list JsObject))
        (payload : JsObject) (w : World) (last t : Z) :
  fixed_offset_zone env ->
  truthy (lastSuccessTime w) = true ->
  new_Date env (lastSuccessTime w) = Some last ->
  new_Date env (prop payload "sensing_time") = Some t ->
  (gap_threshold cfg < inject_Z (t - last))%Q ->
  (forall n d, file_result env n d = fs d) ->
  (forall n b, post_result env n b = true) ->
  forall e,
    In e (posts_at Resend (events (sendDataToTcpServer env cfg payload w)))
    <-> exists d entries,
          day_of last <= d <= day_of t /\ fs d = Some entries /\ In e entries
          /\ in_window env last t e /\ is_reading e = true.
Proof.
  intros Hz Hset Hlast Ht Hgap Hfs Hall e.
  destruct (episode_posts env cfg fs payload w last t Hset Hlast Ht (Hall _ _) Hgap Hfs)
    as [w' Hw'].
  rewrite Hw'.
  destruct (resend_success env (episode_candidates env fs last t) w') as [Hposts _];
    [intros i x _; apply Hall|].
  rewrite Hposts. unfold episode_candidates.
  rewrite (getDateRange_fixed env _ _ Hz).
  rewrite <- in_rev, in_concat. split.
  - intros (l & Hl & He). apply in_map_iff in Hl as (d & <- & Hd).
    apply days_between_In in Hd. unfold day_candidates in He.
    destruct (fs d) as [entries|] eqn:Efs; [|destruct He].
    apply filter_In in He as [Hin Hf].
    apply unsent_filter_spec in Hf as (te & Hte & Hr & Hrd).
    exists d, entries. repeat split; try assumption; try lia.
    exists te. split; assumption.
  - intros (d & entries & Hd & Efs & Hin & (te & Hte & Hr) & Hrd).
    exists (day_candidates env fs last t d). split.
    + apply in_map. apply days_between_In. exact Hd.
    + unfold day_candidates. rewrite Efs. apply filter_In. split; [exact Hin|].
      apply unsent_filter_spec. exists te. auto.
Qed.

(** X21.  The order of the resends.  With log files that do not change,
    the entries resent are a prefix of the candidates: the filtered
    entries of the files of the dates of getDateRange, each file in its
    order, the files in the order of the dates, and the whole reversed;
    all of them when every post succeeds.  In a local zone whose offset
    from UTC never changes, with the reading taken the day after
    [lastSuccessTime] and the two files holding [e1; e2] and [e3; e4], all
    in the window, the candidates are e4, e3, e2, e1. *)
Theorem backfill_order_in_fixed_zone (fs : Z -> option (list JsObject))
        (payload : JsObject) (w : World) (last t : Z) :
  truthy (lastSuccessTime w) = true ->
  new_Date env (lastSuccessTime w) = Some last ->
  new_Date env (prop payload "sensing_time") = Some t ->
  post_result env (tick w) payload = true ->
  (gap_threshold cfg < inject_Z (t - last))%Q ->
  (forall n d, file_result env n d = fs d) ->
  let sent := posts_at Resend (events (sendDataToTcpServer env cfg payload w)) in
  (exists rest, episode_candidates env fs last t = sent ++ rest)
  /\ ((forall n b, post_result env n b = true) ->
      sent = episode_candidates env fs last t)
  /\ (forall e1 e2 e3 e4,
         fixed_offset_zone env ->
         day_of t = day_of last + 1 ->
         fs (day_of last) = Some [e1; e2] ->
         fs (day_of t) = Some [e3; e4] ->
         in_window env last t e1 -> in_window env last t e2 ->
         in_window env last t e3 -> in_window env last t e4 ->
         is_reading e1 = true -> is_reading e2 = true ->
         is_reading e3 = true -> is_reading e4 = true ->
         episode_candidates env fs last t = [e4; e3; e2; e1]).
Proof.
  intros Hset Hlast Ht Hok Hgap Hfs sent. subst sent.
  destruct (episode_posts env cfg fs payload w last t Hset Hlast Ht Hok Hgap Hfs)
    as [w' Hw'].
  rewrite Hw'. split; [|split].
  - destruct (resend_prefix env (episode_candidates env fs last t) w') as [rest Hrest].
    exists rest. exact Hrest.
  - intros Hall. apply resend_success. intros i e _. apply Hall.
  - intros e1 e2 e3 e4 Hz Hday Hd1 Hd2 W1 W2 W3 W4 R1 R2 R3 R4.
    assert (F : forall e, in_window env last t e -> is_reading e = true ->
                          unsent_filter env (Some last) (Some t) e = true).
    { intros e (te & Hte & Hr) Hrd. apply unsent_filter_spec. exists te. auto. }
    unfold episode_candidates. rewrite (getDateRange_fixed env _ _ Hz), Hday.
    rewrite days_between_cons by lia. rewrite days_between_cons by lia.
    rewrite days_between_nil by lia.
    cbn [map concat]. unfold day_candidates. rewrite <- Hday, Hd1, Hd2.
    cbn [filter].
    rewrite (F e1), (F e2), (F e3), (F e4) by assumption.
    reflexivity.
Qed.

(** X8.  The first delivery of a process, and any delivery made while
    [lastSuccessTime] is unset, starts no backfill whatever the sensing
    time: after a successful post nothing is read and nothing is resent. *)
Theorem no_backfill_without_lastSuccessTime (payload : JsObject) (w : World) :
  truthy (lastSuccessTime w) = false ->
  post_result env (tick w) payload = true ->
  sendDataToTcpServer env cfg payload w
  = (tt, with_lastSuccessTime (prop payload "sensing_time") (next_tick w),
     [Console LogSending; Post Primary payload true; Console LogSent]).
Proof.
  intros Hunset Hok. rewrite send_run, Hok.
  unfold gap_check. apply run_ext; run_step; rewrite ?Hunset; reflexivity.
Qed.

End EpisodeReads.

Lemma episode_reads_every_day_witness :
  let env := demo_env (fun _ => true) (fun d => if d =? 2 then demo_logs 2 else None) in
  let w := demo_world [] (JsTime 86400500) in
  let evs := events (sendDataToTcpServer env demo_cfg (demo_reading 172803000) w) in
  read_dates evs = [1; 2] /\ read_errors evs = [1].
Proof.
  intros env w evs.
  destruct (episode_reads_every_day env demo_cfg
              (fun d => if d =? 2 then demo_logs 2 else None)
              (demo_reading 172803000) w 86400500 172803000
              (demo_zone_fixed _ _) eq_refl eq_refl eq_refl eq_refl eq_refl)
    as [Hd He].
  split; [exact Hd|]. apply He. reflexivity.
Defined.

Lemma resends_stay_in_window_witness :
  let numbered := [ ("sensing_time", JsNumber (inject_Z 86402000));
                    ("ang_x", JsString "0.000"); ("ang_y", JsString "0.000");
                    ("ang_z", JsString "0.000") ]%string in
  let env := demo_env (fun _ => true)
                      (fun d => if d =? 1 then Some [numbered] else None) in
  let w := demo_world [] (JsTime 86401500) in
  let sent := posts_at Resend
                (events (sendDataToTcpServer env demo_cfg (demo_reading 172801500) w)) in
  sent = [numbered]
  /\ Forall (fun e => in_window env 86401500 172801500 e /\ is_reading e = true) sent.
Proof.
  intros numbered env w sent. split; [reflexivity|].
  apply (resends_stay_in_window env demo_cfg (demo_reading 172801500) w
           86401500 172801500 eq_refl eq_refl).
Defined.

Lemma backfill_resends_whole_window_witness :
  let env := demo_env (fun _ => true) demo_logs in
  let w := demo_world [] (JsTime 86401500) in
  In (demo_reading 86402000)
     (posts_at Resend
        (events (sendDataToTcpServer env demo_cfg (demo_reading 172801500) w))).
Proof.
  intros env w.
  apply (backfill_resends_whole_window env demo_cfg demo_logs
           (demo_reading 172801500) w 86401500 172801500
           (demo_zone_fixed _ _) eq_refl eq_refl eq_refl eq_refl
           (fun _ _ => eq_refl) (fun _ _ => eq_refl)).
  exists 1, [demo_reading 86401000; demo_reading 86402000].
  split; [cbn; lia|]. split; [reflexivity|]. split; [right; left; reflexivity|].
  split; [|reflexivity]. exists 86402000. split; [reflexivity|lia].
Defined.

Lemma backfill_order_in_fixed_zone_witness :
  let env := demo_env (fun _ => true) demo_logs in
  let w := demo_world [] (JsTime 86400500) in
  posts_at Resend (events (sendDataToTcpServer env demo_cfg (demo_reading 172803000) w))
  = [demo_reading 172802000; demo_reading 172801000;
     demo_reading 86402000; demo_reading 86401000].
Proof.
  intros env w.
  destruct (backfill_order_in_fixed_zone env demo_cfg demo_logs
              (demo_reading 172803000) w 86400500 172803000
              eq_refl eq_refl eq_refl eq_refl eq_refl
              (fun _ _ => eq_refl)) as (_ & Hall & Htwo).
  rewrite Hall by reflexivity.
  apply Htwo; try reflexivity; try apply demo_zone_fixed;
    [exists 86401000|exists 86402000|exists 172801000|exists 172802000];
    (split; [reflexivity|lia]).
Defined.

Lemma no_backfill_without_lastSuccessTime_witness :
  let env := demo_env (fun _ => true) demo_logs in
  events (sendDataToTcpServer env demo_cfg (demo_reading 172801500)
            (demo_world [] JsNull))
  = [Console LogSending; Post Primary (demo_reading 172801500) true; Console LogSent].
Proof.
  intros env.
  rewrite (no_backfill_without_lastSuccessTime env demo_cfg (demo_reading 172801500)
             (demo_world [] JsNull) eq_refl eq_refl).
  reflexivity.
Defined.

(** ** The handler as a whole *)

Lemma last_app_cons (a b : list JsValue) (y d d' : JsValue) :
  last (a ++ y :: b) d = last (y :: b) d'.
Proof.
  induction a as [|x a IH]; [apply last_default|].
  cbn [app]. destruct (a ++ y :: b) as [|z l] eqn:E.
  - destruct a; discriminate E.
  - change (last (z :: l) d = last (y :: b) d'). exact IH.
Qed.

Lemma last_app (a b : list JsValue) (d : JsValue) :
  last (a ++ b) d = last b (last a d).
Proof.
  destruct b as [|y b]; [rewrite app_nil_r; reflexivity|]. apply last_app_cons.
Qed.

Section Handler.

Variable env : Env.
Variable cfg : Config.

Lemma on_data_short (inputData : Buffer) (w : World) :
  (length (dataBuffer w ++ inputData) < 17)%nat ->
  on_data env cfg inputData w
  = (tt, with_dataBuffer (dataBuffer w ++ inputData) w, [Console LogSensing]).
Proof.
  intros H. rewrite on_data_run, data_loop_short by exact H. reflexivity.
Qed.

(** X9.  A chunk that leaves fewer than 17 bytes buffered is only
    appended: nothing is decoded, nothing is asked of the surroundings and
    nothing is logged or sent.  This covers the empty chunk. *)
Theorem short_chunk_accumulates (inputData : Buffer) (w : World) :
  (length (dataBuffer w ++ inputData) < 17)%nat ->
  on_data env cfg inputData w
  = (tt, with_dataBuffer (dataBuffer w ++ inputData) w, [Console LogSensing]).
Proof.
  intros H. apply on_data_short, H.
Qed.

(** X10.  A frame that arrives in two chunks is decoded as if it had
    arrived in one: when the first chunk leaves fewer than 17 bytes
    buffered, handling the second chunk ends in the same state and performs
    the same effects as handling the two chunks joined. *)
Theorem split_chunk_same_as_whole (a b : Buffer) (w : World) :
  (length (dataBuffer w ++ a) < 17)%nat ->
  on_data env cfg b (world_of (on_data env cfg a w)) = on_data env cfg (a ++ b) w.
Proof.
  intros H. rewrite (on_data_short a w H).
  rewrite !on_data_run. cbn [world_of fst snd with_dataBuffer dataBuffer].
  rewrite <- app_assoc. reflexivity.
Qed.

Lemma loop_body_keeps (w : World) :
  (exists n, dataBuffer (world_of (loop_body env cfg w)) = skipn n (dataBuffer w))
  /\ startTime (world_of (loop_body env cfg w)) = startTime w
  /\ startHrtime (world_of (loop_body env cfg w)) = startHrtime w.
Proof.
  rewrite loop_body_run.
  destruct (buffer_equals (slice 0 3 (dataBuffer w)) magic).
  - destruct (buffer_equals _ _).
    + split; [exists 17%nat; apply accept_frame_buffer|].
      rewrite accept_frame_run. cbn [world_of fst snd with_dataBuffer startTime startHrtime].
      destruct (send_same_buffer env cfg (reading_at env cfg (dataBuffer w) w)
                  (Nat.iter 6 next_tick w)) as (_ & Hs & Hh).
      destruct (iter_next_tick_same 6 w) as (_ & Hs' & Hh').
      split; congruence.
    + rewrite reject_frame_run. split; [exists 17%nat; reflexivity|split; reflexivity].
  - destruct (indexOf (dataBuffer w) 80 1) as [k|] eqn:E.
    + rewrite (resync_found_run env _ w k E).
      split; [exists k; reflexivity|split; reflexivity].
    + rewrite (resync_none_run env _ w E).
      split; [|split; reflexivity].
      exists (length (dataBuffer w)). cbn [world_of fst snd with_dataBuffer dataBuffer].
      symmetry. apply skipn_all.
Qed.

Lemma data_loop_keeps (fuel : nat) (w : World) :
  (exists n, dataBuffer (world_of (data_loop env cfg fuel w)) = skipn n (dataBuffer w))
  /\ startTime (world_of (data_loop env cfg fuel w)) = startTime w
  /\ startHrtime (world_of (data_loop env cfg fuel w)) = startHrtime w.
Proof.
  revert w. induction fuel as [|fuel IH]; intros w.
  - split; [exists 0%nat; reflexivity|split; reflexivity].
  - destruct (Nat.lt_ge_cases (length (dataBuffer w)) 17) as [Hs|Hl].
    + rewrite data_loop_short by exact Hs.
      split; [exists 0%nat; reflexivity|split; reflexivity].
    + rewrite data_loop_turn by exact Hl.
      destruct (loop_body_keeps w) as ([n Hn] & Hst & Hhr).
      destruct (result (loop_body env cfg w)); cbn [world_of fst snd].
      * destruct (IH (world_of (loop_body env cfg w))) as ([m Hm] & Hst' & Hhr').
        split; [|split; congruence].
        exists (n + m)%nat. rewrite Hm, Hn, skipn_skipn.
        f_equal. lia.
      * split; [exists n; exact Hn|split; assumption].
Qed.

(** X11.  When the handler returns, fewer than 17 bytes are buffered, and
    they are a tail of what was buffered before followed by the chunk: the
    decoder only drops bytes from the front, never reorders or invents
    them.  The clock anchors are left as they were. *)
Theorem on_data_leaves_a_tail (inputData : Buffer) (w : World) :
  let w' := world_of (on_data env cfg inputData w) in
  (length (dataBuffer w') < 17)%nat
  /\ (exists n, dataBuffer w' = skipn n (dataBuffer w ++ inputData))
  /\ (wf_buffer (dataBuffer w) -> wf_buffer inputData -> wf_buffer (dataBuffer w'))
  /\ startTime w' = startTime w /\ startHrtime w' = startHrtime w.
Proof.
  intros w'. subst w'. rewrite on_data_run. cbn [world_of fst snd].
  set (w0 := with_dataBuffer (dataBuffer w ++ inputData) w).
  change (dataBuffer w ++ inputData) with (dataBuffer w0).
  destruct (data_loop_keeps (length (dataBuffer w0)) w0) as ([n Hn] & Hst & Hhr).
  split; [apply data_loop_exhausts; lia|].
  split; [exists n; exact Hn|].
  split; [|split; assumption].
  intros Hwf1 Hwf2. rewrite Hn. apply Forall_skipn.
  unfold w0. cbn [with_dataBuffer dataBuffer]. apply Forall_app. split; assumption.
Qed.

(** X12.  A valid frame at the head of the buffer is consumed whole and
    decoding goes on right behind it: the run outputs the Reading of the
    frame, then whatever the remaining bytes give.  Frames that arrive back
    to back in one chunk are therefore all decoded, in order. *)
Theorem valid_frame_then_rest (w : World) :
  (17 <= length (dataBuffer w))%nat -> wf_buffer (dataBuffer w) ->
  slice 0 3 (dataBuffer w) = magic -> crc_matches (dataBuffer w) ->
  let w1 := world_of (accept_frame env cfg (dataBuffer w) w) in
  let rest := data_loop env cfg (length (dataBuffer w1)) w1 in
  dataBuffer w1 = slice_from 17 (dataBuffer w)
  /\ saved (events (data_loop env cfg (length (dataBuffer w)) w))
     = reading_at env cfg (dataBuffer w) w :: saved (events rest)
  /\ posts_at Primary (events (data_loop env cfg (length (dataBuffer w)) w))
     = reading_at env cfg (dataBuffer w) w :: posts_at Primary (events rest)
  /\ world_of (data_loop env cfg (length (dataBuffer w)) w) = world_of rest.
Proof.
  intros Hlen Hwf Hmagic Hcrc w1 rest.
  assert (Hbuf : dataBuffer w1 = slice_from 17 (dataBuffer w))
    by apply accept_frame_buffer.
  split; [exact Hbuf|].
  assert (Hfuel : exists fuel, length (dataBuffer w) = S fuel).
  { destruct (length (dataBuffer w)) as [|fuel]; [lia|exists fuel; reflexivity]. }
  destruct Hfuel as [fuel Hfuel]. rewrite Hfuel.
  rewrite data_loop_turn by exact Hlen.
  destruct (loop_body_magic env cfg w Hlen Hwf Hmagic) as [Hacc _].
  rewrite (Hacc Hcrc).
  assert (Hres : result (accept_frame env cfg (dataBuffer w) w) = true)
    by (rewrite accept_frame_run; reflexivity).
  rewrite Hres. cbn [events world_of fst snd].
  fold w1. rewrite (data_loop_fuel env cfg fuel (length (dataBuffer w1)) w1);
    [|rewrite Hbuf; unfold slice_from; rewrite length_skipn; lia|lia].
  fold rest. rewrite saved_app, posts_at_app.
  destruct (accept_outputs env cfg (dataBuffer w) w) as (Hs & Hp & _).
  rewrite Hs, Hp. repeat split.
Qed.

(** X13.  A frame with the right header and a wrong checksum costs exactly
    17 bytes: one ErrorRecord is output, and decoding goes on 17 bytes
    further without looking for a header inside the bytes dropped. *)
Theorem bad_crc_drops_17_bytes (w : World) :
  (17 <= length (dataBuffer w))%nat -> wf_buffer (dataBuffer w) ->
  slice 0 3 (dataBuffer w) = magic -> ~ crc_matches (dataBuffer w) ->
  let w1 := with_dataBuffer (slice_from 17 (dataBuffer w)) (next_tick w) in
  let rest := data_loop env cfg (length (dataBuffer w1)) w1 in
  data_loop env cfg (length (dataBuffer w)) w
  = (tt, world_of rest,
     Console LogCrcFailed :: Save (error_at env w "CRC validation failed")
       :: events rest).
Proof.
  intros Hlen Hwf Hmagic Hcrc w1 rest.
  assert (Hfuel : exists fuel, length (dataBuffer w) = S fuel).
  { destruct (length (dataBuffer w)) as [|fuel]; [lia|exists fuel; reflexivity]. }
  destruct Hfuel as [fuel Hfuel]. rewrite Hfuel.
  rewrite data_loop_turn by exact Hlen.
  destruct (loop_body_magic env cfg w Hlen Hwf Hmagic) as [_ Hrej].
  rewrite (Hrej Hcrc), reject_frame_run. cbn [result events world_of fst snd app].
  fold w1. rewrite (data_loop_fuel env cfg fuel (length (dataBuffer w1)) w1);
    [|unfold w1; cbn [with_dataBuffer dataBuffer]; unfold slice_from;
      rewrite length_skipn; lia|lia].
  fold rest. destruct rest as [[[] w2] e2]. reflexivity.
Qed.

Lemma loop_body_last (w : World) :
  lastSuccessTime (world_of (loop_body env cfg w))
  = last (map sensing_time_of (readings (events (loop_body env cfg w))))
         (lastSuccessTime w).
Proof.
  rewrite loop_body_run.
  destruct (buffer_equals (slice 0 3 (dataBuffer w)) magic).
  - destruct (buffer_equals _ _).
    + destruct (accept_outputs env cfg (dataBuffer w) w) as (_ & _ & Hr).
      rewrite Hr. rewrite accept_frame_run.
      cbn [world_of fst snd with_dataBuffer lastSuccessTime map last].
      apply send_lastSuccessTime.
    + rewrite reject_frame_run. reflexivity.
  - destruct (indexOf (dataBuffer w) 80 1) as [k|] eqn:E.
    + rewrite (resync_found_run env _ w k E). reflexivity.
    + rewrite (resync_none_run env _ w E). reflexivity.
Qed.

Lemma data_loop_last (fuel : nat) (w : World) :
  lastSuccessTime (world_of (data_loop env cfg fuel w))
  = last (map sensing_time_of (readings (events (data_loop env cfg fuel w))))
         (lastSuccessTime w).
Proof.
  revert w. induction fuel as [|fuel IH]; intros w; [reflexivity|].
  destruct (Nat.lt_ge_cases (length (dataBuffer w)) 17) as [Hs|Hl].
  - rewrite data_loop_short by exact Hs. reflexivity.
  - rewrite data_loop_turn by exact Hl.
    destruct (result (loop_body env cfg w)); cbn [world_of events fst snd].
    + rewrite IH, readings_app, map_app, last_app, loop_body_last. reflexivity.
    + apply loop_body_last.
Qed.

(** X14.  After a chunk has been handled, [lastSuccessTime] is the sensing
    time of the last Reading decoded from it, whether or not that Reading
    or any resend was delivered; a chunk that gives no Reading (too short,
    bad checksum, no header) leaves it as it was. *)
Theorem lastSuccessTime_after_chunk (inputData : Buffer) (w : World) :
  lastSuccessTime (world_of (on_data env cfg inputData w))
  = last (map sensing_time_of (readings (events (on_data env cfg inputData w))))
         (lastSuccessTime w).
Proof.
  rewrite on_data_run. cbn [world_of events fst snd].
  rewrite readings_cons. cbn [app].
  exact (data_loop_last _ (with_dataBuffer (dataBuffer w ++ inputData) w)).
Qed.

End Handler.

Lemma on_data_leaves_a_tail_witness :
  let env := demo_env (fun _ => true) (fun _ => None) in
  let w' := world_of (on_data env demo_cfg (demo_frame ++ [0x50; 0x03])
                        (demo_world [] JsNull)) in
  wf_buffer (dataBuffer w') /\ (length (dataBuffer w') < 17)%nat.
Proof.
  intros env w'.
  destruct (on_data_leaves_a_tail env demo_cfg (demo_frame ++ [0x50; 0x03])
              (demo_world [] JsNull)) as (Hlen & _ & Hwf & _).
  split; [|exact Hlen].
  apply Hwf; repeat constructor; unfold is_byte; lia.
Defined.

Lemma short_chunk_accumulates_witness :
  on_data (demo_env (fun _ => true) (fun _ => None)) demo_cfg []
          (demo_world [0x50; 0x03] JsNull)
  = (tt, demo_world [0x50; 0x03] JsNull, [Console LogSensing]).
Proof.
  rewrite short_chunk_accumulates by (cbn; lia). reflexivity.
Defined.

Lemma split_chunk_same_as_whole_witness :
  let env := demo_env (fun _ => true) (fun _ => None) in
  let w := demo_world [] JsNull in
  on_data env demo_cfg (skipn 5 demo_frame)
          (world_of (on_data env demo_cfg (firstn 5 demo_frame) w))
  = on_data env demo_cfg (firstn 5 demo_frame ++ skipn 5 demo_frame) w.
Proof.
  intros env w. apply split_chunk_same_as_whole. cbn. lia.
Defined.

Lemma valid_frame_then_rest_witness :
  let env := demo_env (fun _ => true) (fun _ => None) in
  let w := demo_world (demo_frame ++ demo_negative_frame) JsNull in
  exists r1 r2,
    saved (events (data_loop env demo_cfg 34 w)) = [r1; r2]
    /\ prop r1 "ang_x" = JsString "25.600" /\ prop r2 "ang_x" = JsString "-0.100".
Proof.
  intros env w.
  destruct (valid_frame_then_rest env demo_cfg w) as (_ & Hs & _).
  - cbn. lia.
  - repeat constructor; unfold is_byte; lia.
  - reflexivity.
  - reflexivity.
  - change (length (dataBuffer w)) with 34%nat in Hs. rewrite Hs.
    eexists. eexists. split; [vm_compute; reflexivity|]. split; reflexivity.
Defined.

Lemma bad_crc_drops_17_bytes_witness :
  let env := demo_env (fun _ => true) (fun _ => None) in
  let w := demo_world ([0x50; 0x03; 0x0c] ++ demo_frame) JsNull in
  readings (events (data_loop env demo_cfg 20 w)) = []
  /\ dataBuffer (world_of (data_loop env demo_cfg 20 w)) = [0; 115; 3].
Proof.
  intros env w. change 20%nat with (length (dataBuffer w)).
  rewrite (bad_crc_drops_17_bytes env demo_cfg w).
  - split; vm_compute; reflexivity.
  - cbn. lia.
  - repeat constructor; unfold is_byte; lia.
  - reflexivity.
  - intros H. vm_compute in H. discriminate H.
Defined.

(** ** Time stamps *)

Lemma stamps_app (a b : list Event) : stamps (a ++ b) = stamps a ++ stamps b.
Proof. unfold stamps. rewrite saved_app. apply flat_map_app. Qed.

Section Stamps.

Variable env : Env.
Variable cfg : Config.

Lemma later_refl (w : World) : later w w.
Proof. repeat split. lia. Qed.

Lemma later_trans (a b c : World) : later a b -> later b c -> later a c.
Proof. unfold later. intros (?&?&?) (?&?&?). repeat split; try congruence. lia. Qed.

Lemma later_next (w : World) : later w (next_tick w).
Proof. repeat split. cbn. lia. Qed.

Lemma later_iter (n : nat) (w : World) : later w (Nat.iter n next_tick w).
Proof.
  induction n as [|n IH]; [apply later_refl|].
  rewrite Nat.iter_succ. eapply later_trans; [exact IH|apply later_next].
Qed.

Lemma resend_later (l : list JsObject) (w : World) :
  later w (world_of (resend env l w)).
Proof.
  revert w. induction l as [|e l IH]; intros w; cbn [resend]; [apply later_refl|].
  run_step. destruct (post_result env (tick w) e); run_step.
  - eapply later_trans; [|apply IH]. repeat split. cbn. lia.
  - apply later_next.
Qed.

Lemma read_unsent_later (lt ct : option Z) (dates : list Z) (acc : list JsObject)
      (w : World) :
  later w (world_of (read_unsent env lt ct dates acc w)).
Proof.
  revert acc w. induction dates as [|d dates IH]; intros acc w; cbn [read_unsent];
    [apply later_refl|].
  run_step. destruct (file_result env (tick w) d); run_step;
    (eapply later_trans; [apply later_next|apply IH]).
Qed.

Lemma send_later (payload : JsObject) (w : World) :
  later w (world_of (sendDataToTcpServer env cfg payload w)).
Proof.
  rewrite send_run. destruct (post_result env (tick w) payload);
    cbn [world_of fst snd]; [|apply later_next].
  eapply later_trans; [apply later_next|].
  assert (H : later (next_tick w) (world_of (gap_check env cfg payload (next_tick w)))).
  { unfold gap_check. run_step.
    destruct (truthy (lastSuccessTime w)); [|apply later_refl].
    destruct (num_gt _ _); [|apply later_refl].
    destruct (new_Date env (lastSuccessTime w)); [|apply later_refl].
    destruct (new_Date env (prop payload "sensing_time")); [|apply later_refl].
    cbn [date_diff]. unfold backfill. run_step.
    eapply later_trans; [apply read_unsent_later|apply resend_later]. }
  destruct H as (H1 & H2 & H3). repeat split; assumption.
Qed.

Lemma precise_time_later (w w' : World) :
  monotonic_clock env -> later w w' -> precise_time env w <= precise_time env w'.
Proof.
  intros Hmono (Hs & Hh & Ht). unfold precise_time. rewrite Hs, Hh.
  apply Z.add_le_mono_l. apply Z.quot_le_mono; [lia|].
  apply Z.sub_le_mono_r. apply Hmono, Ht.
Qed.

(** One turn of the loop stamps at most one output, between the time at
    its start and the time at its end. *)
Lemma loop_body_stamps (w : World) :
  monotonic_clock env ->
  later w (world_of (loop_body env cfg w))
  /\ (stamps (events (loop_body env cfg w)) = []
      \/ exists t, stamps (events (loop_body env cfg w)) = [t]
                   /\ precise_time env w <= t
                   /\ t <= precise_time env (world_of (loop_body env cfg w))).
Proof.
  intros Hmono. rewrite loop_body_run.
  destruct (buffer_equals (slice 0 3 (dataBuffer w)) magic).
  - destruct (buffer_equals _ _).
    + assert (Hl : later (Nat.iter 6 next_tick w)
                         (world_of (accept_frame env cfg (dataBuffer w) w))).
      { rewrite accept_frame_run. cbn [world_of fst snd].
        destruct (send_later (reading_at env cfg (dataBuffer w) w)
                    (Nat.iter 6 next_tick w)) as (H1 & H2 & H3).
        repeat split; assumption. }
      split; [eapply later_trans; [apply (later_iter 6)|exact Hl]|].
      right. exists (precise_time env (Nat.iter 5 next_tick w)).
      split.
      * unfold stamps. destruct (accept_outputs env cfg (dataBuffer w) w) as (Hs & _).
        rewrite Hs. reflexivity.
      * split; [apply precise_time_later; [exact Hmono|apply (later_iter 5)]|].
        apply precise_time_later; [exact Hmono|].
        eapply later_trans; [|exact Hl].
        change (Nat.iter 6 next_tick w) with (next_tick (Nat.iter 5 next_tick w)).
        apply later_next.
    + rewrite reject_frame_run. cbn [world_of events fst snd].
      split; [repeat split; cbn; lia|].
      right. exists (precise_time env w). split; [reflexivity|].
      split; [lia|]. apply precise_time_later; [exact Hmono|].
      repeat split. cbn. lia.
  - destruct (indexOf (dataBuffer w) 80 1) as [k|] eqn:E.
    + rewrite (resync_found_run env _ w k E). cbn [world_of events fst snd].
      split; [repeat split; cbn; lia|]. left. reflexivity.
    + rewrite (resync_none_run env _ w E). cbn [world_of events fst snd].
      split; [repeat split; cbn; lia|].
      right. exists (precise_time env w). split; [reflexivity|].
      split; [lia|]. apply precise_time_later; [exact Hmono|].
      repeat split. cbn. lia.
Qed.

Lemma data_loop_stamps (fuel : nat) (w : World) :
  monotonic_clock env ->
  later w (world_of (data_loop env cfg fuel w))
  /\ StronglySorted Z.le (stamps (events (data_loop env cfg fuel w)))
  /\ Forall (fun t => precise_time env w <= t)
            (stamps (events (data_loop env cfg fuel w))).
Proof.
  intros Hmono. revert w. induction fuel as [|fuel IH]; intros w.
  - split; [apply later_refl|]. split; constructor.
  - destruct (Nat.lt_ge_cases (length (dataBuffer w)) 17) as [Hs|Hl].
    + rewrite data_loop_short by exact Hs.
      split; [apply later_refl|]. split; constructor.
    + rewrite data_loop_turn by exact Hl.
      destruct (loop_body_stamps w Hmono) as (Hlater & Hst).
      pose proof (precise_time_later _ _ Hmono Hlater) as Hle.
      destruct (result (loop_body env cfg w)); cbn [world_of events fst snd].
      * destruct (IH (world_of (loop_body env cfg w))) as (Hlater' & Hsorted & Hall).
        split; [eapply later_trans; eassumption|].
        rewrite stamps_app.
        assert (Hall' : Forall (fun t => precise_time env w <= t)
                               (stamps (events (data_loop env cfg fuel
                                                  (world_of (loop_body env cfg w)))))).
        { eapply Forall_impl; [|exact Hall]. cbn beta. intros t Ht. lia. }
        destruct Hst as [-> | (t & -> & H1 & H2)]; cbn [app].
        -- split; assumption.
        -- split.
           ++ constructor; [exact Hsorted|].
              eapply Forall_impl; [|exact Hall]. cbn beta. intros x Hx. lia.
           ++ constructor; assumption.
      * split; [exact Hlater|].
        destruct Hst as [-> | (t & -> & H1 & H2)].
        -- split; constructor.
        -- split; repeat constructor. exact H1.
Qed.

(** X15.  When the monotonic clock does not run backwards, the outputs of
    a chunk are stamped in order: the sensing times of the Readings and
    ErrorRecords handed to the daily log never decrease, and none precedes
    the time at which the handler started. *)
Theorem outputs_stamped_in_order (inputData : Buffer) (w : World) :
  monotonic_clock env ->
  StronglySorted Z.le (stamps (events (on_data env cfg inputData w)))
  /\ Forall (fun t => precise_time env w <= t)
            (stamps (events (on_data env cfg inputData w))).
Proof.
  intros Hmono. rewrite on_data_run. cbn [events snd].
  destruct (data_loop_stamps (length (dataBuffer w ++ inputData))
              (with_dataBuffer (dataBuffer w ++ inputData) w) Hmono)
    as (_ & Hsorted & Hall).
  split; [exact Hsorted|exact Hall].
Qed.

(** X16.  getPreciseAbsoluteTime after the anchors have been taken
    together (lines 76-77): as long as the monotonic clock does not run
    backwards, a stamp never precedes the wall-clock anchor, it equals the
    anchor during the first millisecond, and a later call never gives an
    earlier stamp.  No later reading of the wall clock enters it. *)
Theorem precise_time_anchored (dateNow : Z) (w w1 w2 : World) :
  monotonic_clock env ->
  let w0 := syncTime dateNow (hrtime env (tick w)) w in
  later w0 w1 -> later w1 w2 ->
  dateNow <= result (getPreciseAbsoluteTime env w1)
  /\ result (getPreciseAbsoluteTime env w1) <= result (getPreciseAbsoluteTime env w2)
  /\ (hrtime env (tick w1) - hrtime env (tick w) < 1000000 ->
      result (getPreciseAbsoluteTime env w1) = dateNow).
Proof.
  intros Hmono w0 (Hs1 & Hh1 & Ht1) Hl2.
  change (result (getPreciseAbsoluteTime env w1)) with (precise_time env w1).
  change (result (getPreciseAbsoluteTime env w2)) with (precise_time env w2).
  pose proof (precise_time_later w1 w2 Hmono Hl2) as Hle.
  cbn [w0 syncTime startTime startHrtime tick] in Hs1, Hh1, Ht1.
  pose proof (Hmono _ _ Ht1) as Hhr.
  unfold precise_time in *. rewrite Hs1, Hh1 in *.
  split; [|split; [exact Hle|]].
  - assert (0 <= Z.quot (hrtime env (tick w1) - hrtime env (tick w)) 1000000)
      by (apply Z.quot_pos; lia).
    lia.
  - intros Hsmall. rewrite Z.quot_small by lia. lia.
Qed.

End Stamps.

Lemma demo_clock_monotonic (post_ok : nat -> bool) (fs : Z -> option (list JsObject)) :
  monotonic_clock (demo_env post_ok fs).
Proof.
  intros n m H. unfold demo_env. cbn [hrtime].
  apply Z.mul_le_mono_nonneg_l; lia.
Qed.

Lemma outputs_stamped_in_order_witness :
  let env := demo_env (fun _ => true) (fun _ => None) in
  StronglySorted Z.le
    (stamps (events (on_data env demo_cfg (demo_bad_frame ++ demo_frame)
                       (demo_world [] JsNull)))).
Proof.
  intros env.
  apply (outputs_stamped_in_order env demo_cfg (demo_bad_frame ++ demo_frame)
           (demo_world [] JsNull)).
  apply demo_clock_monotonic.
Defined.

Lemma precise_time_anchored_witness :
  let env := demo_env (fun _ => true) (fun _ => None) in
  let w := demo_world [] JsNull in
  1000 <= result (getPreciseAbsoluteTime env
                    (Nat.iter 3 next_tick (syncTime 1000 (hrtime env (tick w)) w))).
Proof.
  intros env w.
  apply (precise_time_anchored env 1000 w
           (Nat.iter 3 next_tick (syncTime 1000 (hrtime env (tick w)) w))
           (Nat.iter 3 next_tick (syncTime 1000 (hrtime env (tick w)) w))).
  - apply demo_clock_monotonic.
  - apply later_iter.
  - apply later_refl.
Defined.

(** ** The poll timer *)

(** X17.  The delay that scheduleSendCommand computes for a positive
    sample period is more than 0 and at most one period, and it ends on a
    multiple of the period counted from the start of the minute; when the
    current time already is such a multiple the delay is a whole period,
    not zero. *)
Theorem first_poll_on_period_boundary (sampleRate seconds milliseconds : Z) :
  0 < sampleRate -> 0 <= seconds -> 0 <= milliseconds ->
  let delay := msUntilNextMinute sampleRate seconds milliseconds in
  0 < delay <= sampleRate
  /\ (seconds * 1000 + milliseconds + delay) mod sampleRate = 0
  /\ ((seconds * 1000 + milliseconds) mod sampleRate = 0 -> delay = sampleRate).
Proof.
  intros HP Hs Hms delay. subst delay. unfold msUntilNextMinute.
  set (now := seconds * 1000 + milliseconds).
  assert (Hnow : 0 <= now) by (unfold now; lia).
  rewrite Z.rem_mod_nonneg by lia.
  pose proof (Z.mod_pos_bound now sampleRate HP) as Hb.
  split; [lia|]. split.
  - replace (now + (sampleRate - now mod sampleRate))
      with (now / sampleRate * sampleRate + 1 * sampleRate).
    + rewrite Z.mod_add by lia. apply Z.mod_mul. lia.
    + pose proof (Z.div_mod now sampleRate). lia.
  - intros ->. lia.
Qed.

Lemma first_poll_on_period_boundary_witness :
  msUntilNextMinute 1000 12 345 = 655 /\ msUntilNextMinute 1000 12 0 = 1000.
Proof.
  destruct (first_poll_on_period_boundary 1000 12 0) as (_ & _ & Hfull); try lia.
  split; [reflexivity|]. apply Hfull. reflexivity.
Defined.

(** ** Start-up checks *)

Lemma js_not_false (v : option string) :
  js_not v = false <-> exists s, v = Some s /\ s <> ""%string.
Proof.
  unfold js_not. destruct v as [s|].
  - rewrite <- not_true_iff_false, String.eqb_eq. split.
    + intros H. exists s. split; [reflexivity|exact H].
    + intros (s' & E & H). injection E as ->. exact H.
  - split; [discriminate|]. intros (s & E & _). discriminate E.
Qed.

(** X18.  The process gets past the start-up checks exactly when each of
    the eight settings is present and not empty and DEVICE_ID is not the
    placeholder "tiltmeter_default"; in every other case it exits with
    code 1.  ANGLE_DIFFERENT_THERSHOLD is required although nothing else
    reads it. *)
Theorem startup_checks_spec (penv : ProcessEnv) :
  (startup_checks penv = Running
   <-> (forall k, In k required_settings ->
                  exists s, penv k = Some s /\ s <> ""%string)
       /\ penv "DEVICE_ID"%string <> Some "tiltmeter_default"%string)
  /\ (forall code message, startup_checks penv = Exit code message -> code = 1).
Proof.
  unfold startup_checks. split; [split|].
  - intros H.
    destruct (js_not (penv "API_URL"%string)) eqn:E1; [discriminate H|].
    destruct (js_not (penv "DEVICE_ID"%string)) eqn:E2; [discriminate H|].
    destruct (match penv "DEVICE_ID"%string with
              | Some s => String.eqb s "tiltmeter_default"
              | None => false
              end) eqn:E3; [discriminate H|].
    destruct (js_not (penv "ANGLE_DIFFERENT_THERSHOLD"%string)) eqn:E4;
      [discriminate H|].
    destruct (js_not (penv "BACKUP_TCP_HOST"%string)) eqn:E5; [discriminate H|].
    destruct (js_not (penv "BACKUP_TCP_PORT"%string)) eqn:E6; [discriminate H|].
    destruct (js_not (penv "BACKUP_TCP_TEST"%string)) eqn:E7; [discriminate H|].
    destruct (js_not (penv "SAMPLE_RATE"%string)) eqn:E8; [discriminate H|].
    destruct (js_not (penv "SERIALPORT_PATH"%string)) eqn:E9; [discriminate H|].
    split.
    + intros k Hk. unfold required_settings in Hk. cbn [In] in Hk.
      decompose [or] Hk; try contradiction; subst k; apply js_not_false; assumption.
    + intros Hd. rewrite Hd in E3. discriminate E3.
  - intros [Hall Hd].
    assert (Hk : forall k, In k required_settings -> js_not (penv k) = false).
    { intros k Hk. apply js_not_false, Hall, Hk. }
    unfold required_settings in Hk. cbn [In] in Hk.
    rewrite !Hk by tauto.
    destruct (penv "DEVICE_ID"%string) as [s|]; [|reflexivity].
    destruct (String.eqb s "tiltmeter_default") eqn:E; [|reflexivity].
    apply String.eqb_eq in E. subst s. contradiction Hd. reflexivity.
  - intros code message.
    repeat match goal with
           | |- (if ?c then _ else _) = _ -> _ => destruct c
           end;
      intros H; try discriminate H; injection H as <- _; reflexivity.
Qed.

Lemma startup_checks_spec_witness :
  startup_checks demo_process_env = Running.
Proof.
  apply (startup_checks_spec demo_process_env). split.
  - intros k Hk. unfold required_settings in Hk. cbn [In] in Hk.
    decompose [or] Hk; try contradiction; subst k;
      eexists; (split; [reflexivity|discriminate]).
  - discriminate.
Defined.
